(** * Ubiquiti mPower switch platform: a shallow embedding and its properties

    The development follows
    [homeassistant/components/switch/ubiquiti_mpower.py]:

    - Python [str] values are lists of code points ([Text]); the [bytes] the
      SSH session hands back are lists of [byte];
    - the dict of dicts [MpowerDevice._states] is a [gmap] of [gmap]s;
    - methods of [MpowerDevice] are computations in a state-and-exception
      monad over the [World] (the controller object and the commands written
      to the session): an exception leaves the mutations made so far in
      place, as in Python;
    - what the remote side answers during one method call (liveness of the
      session, outcome of the login, text before the prompt) is an [Env];
      [sendline] and [prompt] are taken to return, and the login to return
      or to raise one of the two exceptions [_connect] handles;
    - library functions the module calls ([bytes.split], [bytes.decode],
      [str.replace], [re.match], [float]) are written out for the way the
      module calls them;
    - the decorator [Throttle] comes from [homeassistant.util], outside these
      sources; its model follows the specification;
    - logging calls have no effect on the controller and are left out, and so
      is [setup_platform], which only builds the objects below from the
      configuration. *)

From Stdlib Require Import ZArith NArith Strings.String Strings.Ascii Strings.Byte.
From Stdlib Require Import Floats.SpecFloat.
From stdpp Require Import base option list gmap fin_maps pretty.

Local Open Scope N_scope.

#[global] Instance byte_eq_decision : EqDecision byte := Byte.byte_eq_dec.

(** ** Text and bytes *)

Abbreviation Text := (list N).
Abbreviation bytes := (list byte).

(** A literal of the source, as code points (all literals are ASCII). *)
Definition txt (s : string) : Text :=
  map (fun a => N_of_ascii a) (list_ascii_of_string s).

(** A literal of the source, as bytes. *)
Definition lit_bytes (s : string) : bytes := list_byte_of_string s.

Definition CR : N := 13.
Definition LF : N := 10.
Definition byte_LF : byte := x0a.

(** ** [bytes.split(b'\n')] and the slice [[1:-1]] *)

Fixpoint split_nl (bs : bytes) : list bytes :=
  match bs with
  | [] => [[]]
  | b :: r =>
      if Byte.eqb b byte_LF then [] :: split_nl r
      else match split_nl r with
           | l :: ls => (b :: l) :: ls
           | [] => [[b]]
           end
  end.

(** [l[1:-1]]: empty for fewer than three items. *)
Definition slice_1_m1 {A} (l : list A) : list A := removelast (tail l).

(** [sep.join(ls)] for [sep = b'\n']; the inverse direction of [split_nl]. *)
Fixpoint join_nl (ls : list bytes) : bytes :=
  match ls with
  | [] => []
  | [l] => l
  | l :: ls' => l ++ byte_LF :: join_nl ls'
  end.

(** ** [bytes.decode('utf-8')], strict *)

Definition in_range (lo hi n : N) : bool := (lo <=? n) && (n <=? hi).

(** Payload of a continuation byte whose value lies in [lo..hi]. *)
Definition cont_in (lo hi : N) (b : byte) : option N :=
  let n := Byte.to_N b in
  if in_range lo hi n then Some (n - 0x80) else None.

Fixpoint utf8_decode (bs : bytes) : option Text :=
  match bs with
  | [] => Some []
  | b0 :: r0 =>
      let n0 := Byte.to_N b0 in
      if n0 <? 0x80 then cons n0 <$> utf8_decode r0
      else if in_range 0xC2 0xDF n0 then
        match r0 with
        | b1 :: r1 =>
            match cont_in 0x80 0xBF b1 with
            | Some c1 => cons ((n0 - 0xC0) * 64 + c1) <$> utf8_decode r1
            | None => None
            end
        | _ => None
        end
      else if in_range 0xE0 0xEF n0 then
        match r0 with
        | b1 :: b2 :: r2 =>
            let lo := if n0 =? 0xE0 then 0xA0 else 0x80 in
            let hi := if n0 =? 0xED then 0x9F else 0xBF in
            match cont_in lo hi b1, cont_in 0x80 0xBF b2 with
            | Some c1, Some c2 =>
                cons ((n0 - 0xE0) * 4096 + c1 * 64 + c2) <$> utf8_decode r2
            | _, _ => None
            end
        | _ => None
        end
      else if in_range 0xF0 0xF4 n0 then
        match r0 with
        | b1 :: b2 :: b3 :: r3 =>
            let lo := if n0 =? 0xF0 then 0x90 else 0x80 in
            let hi := if n0 =? 0xF4 then 0x8F else 0xBF in
            match cont_in lo hi b1, cont_in 0x80 0xBF b2, cont_in 0x80 0xBF b3 with
            | Some c1, Some c2, Some c3 =>
                cons ((n0 - 0xF0) * 262144 + c1 * 4096 + c2 * 64 + c3)
                  <$> utf8_decode r3
            | _, _, _ => None
            end
        | _ => None
        end
      else None
  end.

(** [s.replace('\r', '')] *)
Definition remove_cr (t : Text) : Text := filter (fun c => c ≠ CR) t.

(** ** The fragment of [re] the status pattern uses *)

(** Zero digits of the decimal-digit runs of Unicode (general category Nd,
    Unicode 14.0; every run has ten code points).  For a [str] pattern [\d]
    matches exactly these.  Interpreters with an older character database
    know fewer runs; nothing below depends on more than the table being a
    list of runs that avoid the ASCII letters, [_], [:] and [.]. *)
Definition decimal_zeros : list N :=
  [0x30; 0x660; 0x6f0; 0x7c0; 0x966; 0x9e6; 0xa66; 0xae6; 0xb66; 0xbe6;
   0xc66; 0xce6; 0xd66; 0xde6; 0xe50; 0xed0; 0xf20; 0x1040; 0x1090; 0x17e0;
   0x1810; 0x1946; 0x19d0; 0x1a80; 0x1a90; 0x1b50; 0x1bb0; 0x1c40; 0x1c50;
   0xa620; 0xa8d0; 0xa900; 0xa9d0; 0xa9f0; 0xaa50; 0xabf0; 0xff10; 0x104a0;
   0x10d30; 0x11066; 0x110f0; 0x11136; 0x111d0; 0x112f0; 0x11450; 0x114d0;
   0x11650; 0x116c0; 0x11730; 0x118e0; 0x11950; 0x11c50; 0x11d50; 0x11da0;
   0x16a60; 0x16ac0; 0x16b50; 0x1d7ce; 0x1d7d8; 0x1d7e2; 0x1d7ec; 0x1d7f6;
   0x1e140; 0x1e2f0; 0x1e950; 0x1fbf0].

(** The value of a decimal digit, [None] for any other character. *)
Definition digit_value (c : N) : option N :=
  (fun z => c - z) <$> List.find (fun z => in_range z (z + 9) c) decimal_zeros.

Definition is_decimal (c : N) : bool := bool_decide (is_Some (digit_value c)).

Inductive atom :=
| ARange (lo hi : N)   (* [lo-hi] *)
| AChar (c : N)        (* a single character *)
| ADigit.              (* \d *)

Definition charset := list atom.

Definition atom_has (a : atom) (c : N) : bool :=
  match a with
  | ARange lo hi => in_range lo hi c
  | AChar c' => c =? c'
  | ADigit => is_decimal c
  end.

Definition charset_has (cs : charset) (c : N) : bool := existsb (fun a => atom_has a c) cs.

Inductive regex :=
| RBegin                      (* ^ *)
| REnd                        (* $ *)
| RChar (c : N)               (* a literal character *)
| RPlus (cs : charset)        (* [...]+, greedy *)
| RSeq (r1 r2 : regex)
| RAlt (r1 r2 : regex)        (* r1|r2, left first *)
| RGroup (r : regex).         (* (r), capturing *)

(** Greedy repetition with backtracking: the longest run first, then each
    shorter one, the first that lets the continuation succeed wins. *)
Fixpoint plus_set {A} (cs : charset) (s : Text) (k : Text → option A) : option A :=
  match s with
  | c :: s' =>
      if charset_has cs c then
        match plus_set cs s' k with
        | Some r => Some r
        | None => k s'
        end
      else None
  | [] => None
  end.

(** Backtracking matcher in continuation-passing style.  [whole] is the
    subject, [s] what is left of it, [g] the groups opened so far ([None]
    while a group has not closed).  A group takes its number when it opens. *)
Fixpoint rmatch (whole : Text) (r : regex) (s : Text) (g : list (option Text))
    (k : Text → list (option Text) → option (list (option Text)))
    : option (list (option Text)) :=
  match r with
  | RBegin => if (length s =? length whole)%nat then k s g else None
  | REnd =>
      (* end of the subject, or just before a final newline *)
      match s with
      | [] => k s g
      | [c] => if c =? LF then k s g else None
      | _ => None
      end
  | RChar c =>
      match s with
      | c' :: s' => if c' =? c then k s' g else None
      | [] => None
      end
  | RPlus cs => plus_set cs s (fun s' => k s' g)
  | RSeq r1 r2 => rmatch whole r1 s g (fun s' g' => rmatch whole r2 s' g' k)
  | RAlt r1 r2 =>
      match rmatch whole r1 s g k with
      | Some res => Some res
      | None => rmatch whole r2 s g k
      end
  | RGroup r1 =>
      let i := length g in
      rmatch whole r1 s (g ++ [None])
        (fun s' g' => k s' (<[i := Some (take (length s - length s') s)]> g'))
  end.

(** [re.match(pattern, s)]: the groups of the match ([match.groups()]), or
    [None] when there is no match at the start of [s]. *)
Definition re_match (r : regex) (s : Text) : option (list (option Text)) :=
  rmatch s r s [] (fun _ g => Some g).

Definition lower_or_underscore : charset := [ARange 97 122; AChar 95].
Definition digits : charset := [ADigit].

Declare Scope regex_scope.
Delimit Scope regex_scope with re.
Infix "⋅" := RSeq (at level 41, right associativity) : regex_scope.

(** [r'^([a-z_]+)(\d+):(\d+|\d+\.\d+)$'] *)
Definition regex_status : regex :=
  (RBegin
   ⋅ RGroup (RPlus lower_or_underscore)
   ⋅ RGroup (RPlus digits)
   ⋅ RChar 58
   ⋅ RGroup (RAlt (RPlus digits) (RPlus digits ⋅ RChar 46 ⋅ RPlus digits))
   ⋅ REnd)%re.


(** ** Exceptions, the world, and the monad of methods *)

Inductive exn :=
| KeyError (k : Text)
| UnicodeDecodeError
| ValueError.

Inductive outcome (A : Type) :=
| Ret (a : A)
| Raise (e : exn).
Arguments Ret {A} a.
Arguments Raise {A} e.

Definition obind {A B} (o : outcome A) (f : A → outcome B) : outcome B :=
  match o with
  | Ret a => f a
  | Raise e => Raise e
  end.

(** [d[k]] *)
Definition getitem {V} (d : gmap Text V) (k : Text) : outcome V :=
  match d !! k with
  | Some v => Ret v
  | None => Raise (KeyError k)
  end.

(** The [pxssh.pxssh] object; all the code looks at is whether there is one. *)
Inductive pxssh := Pxssh.

(** Truth value of a reference that is [None] or an object without
    [__bool__] and [__len__]. *)
Definition truthy {A} (o : option A) : bool :=
  match o with
  | Some _ => true
  | None => false
  end.

(** What [pxssh.login] does: return, or raise one of the two exceptions
    [_connect] handles. *)
Inductive login_outcome :=
| LoginOk
| LoginEOF               (* pexpect.exceptions.EOF *)
| LoginExceptionPxssh.   (* pxssh.ExceptionPxssh *)

(** The remote side during one method call. *)
Record Env := {
  isalive : bool;          (* answer of [_ssh.isalive()] *)
  login : login_outcome;   (* outcome of [_ssh.login(...)] *)
  before : bytes           (* [_ssh.before] once [prompt()] has returned *)
}.

Abbreviation StateTable := (gmap Text (gmap Text Text)).

Record MpowerDevice := {
  _name : Text;
  _host : Text;
  _username : Text;
  _password : Text;
  _timeout : Z;
  _states : StateTable;
  _ssh : option pxssh;
  _throttle : option Z     (* time of the last refresh, microseconds *)
}.

(** The controller and the lines written to the session, oldest first. *)
Record World := {
  self : MpowerDevice;
  wire : list Text
}.

Definition M (A : Type) : Type := World → outcome A * World.

Definition ret {A} (a : A) : M A := fun w => (Ret a, w).
Definition raise {A} (e : exn) : M A := fun w => (Raise e, w).
Definition bind {A B} (c : M A) (f : A → M B) : M B :=
  fun w => match c w with
           | (Ret a, w') => f a w'
           | (Raise e, w') => (Raise e, w')
           end.

Declare Scope meth_scope.
Delimit Scope meth_scope with meth.
Notation "x ⇐ c ;; k" := (bind c (fun x => k))
  (at level 100, c at next level, right associativity) : meth_scope.
Notation "c ;; k" := (bind c (fun _ => k))
  (at level 100, right associativity) : meth_scope.
Local Open Scope meth_scope.

Definition get_self : M MpowerDevice := fun w => (Ret (self w), w).
Definition modify_self (f : MpowerDevice → MpowerDevice) : M unit :=
  fun w => (Ret (), {| self := f (self w); wire := wire w |}).

Definition with_states (s : StateTable) (d : MpowerDevice) : MpowerDevice :=
  {| _name := _name d; _host := _host d; _username := _username d;
     _password := _password d; _timeout := _timeout d;
     _states := s; _ssh := _ssh d; _throttle := _throttle d |}.
Definition with_ssh (s : option pxssh) (d : MpowerDevice) : MpowerDevice :=
  {| _name := _name d; _host := _host d; _username := _username d;
     _password := _password d; _timeout := _timeout d;
     _states := _states d; _ssh := s; _throttle := _throttle d |}.
Definition with_throttle (t : option Z) (d : MpowerDevice) : MpowerDevice :=
  {| _name := _name d; _host := _host d; _username := _username d;
     _password := _password d; _timeout := _timeout d;
     _states := _states d; _ssh := _ssh d; _throttle := t |}.

(** [_ssh.sendline(cmd)] followed by [_ssh.prompt()]: the line goes out and
    the call waits for the prompt. *)
Definition sendline (cmd : Text) : M unit :=
  fun w => (Ret (), {| self := self w; wire := wire w ++ [cmd] |}).
Definition prompt : M unit := ret ().

Fixpoint for_each {A} (l : list A) (body : A → M unit) : M unit :=
  match l with
  | [] => ret ()
  | x :: l' => body x ;; for_each l' body
  end.

(** ** Constants of the module *)

Definition CMD_POWER_STATUS : Text :=
  txt "cd /proc/power;grep '' pf* relay* v_rms* active_pwr* i_rms* energy_sum*".

(** [CMD_RELAY.format(state, device_number)] *)
Definition CMD_RELAY (state : N) (device_number : Text) : Text :=
  txt "echo " ++ txt (pretty state) ++ txt " > /proc/power/relay" ++ device_number.

(** [timedelta(seconds=5)], in microseconds. *)
Definition MIN_TIME_BETWEEN_UPDATES : Z := 5000000.

Definition DEFAULT_TIMEOUT : Z := 20.
Definition DEFAULT_NAME : Text := txt "mPower".
Definition DEFAULT_USERNAME : Text := txt "ubnt".
Definition DEFAULT_PASSWORD : Text := txt "ubnt".

(** ** class MpowerDevice *)

(** [MpowerDevice.__init__] *)
Definition MpowerDevice_init (name host username password : Text) (timeout : Z)
    : MpowerDevice :=
  {| _name := name; _host := host; _username := username;
     _password := password; _timeout := timeout;
     _states := ∅; _ssh := None; _throttle := None |}.

Definition _connect (e : Env) : M unit :=
  d ⇐ get_self ;;
  if match _ssh d with
     | None => true
     | Some _ => negb (isalive e)
     end
  then
    modify_self (with_ssh (Some Pxssh)) ;;
    match login e with
    | LoginOk => ret ()
    | LoginEOF => modify_self (with_ssh None)
    | LoginExceptionPxssh => modify_self (with_ssh None)
    end
  else ret ().

Definition _switch_state (state : N) (device_number : Text) (e : Env) : M bool :=
  _connect e ;;
  d ⇐ get_self ;;
  if truthy (_ssh d) then
    sendline (CMD_RELAY state device_number) ;;
    prompt ;;
    ret true
  else ret false.

(** [self._states[device_number]['relay'] = value] *)
Definition set_relay_entry (device_number value : Text) : M unit :=
  d ⇐ get_self ;;
  match getitem (_states d) device_number with
  | Ret m => modify_self (with_states (<[device_number := <[txt "relay" := value]> m]> (_states d)))
  | Raise err => raise err
  end.

Definition turn_on (device_number : Text) (e : Env) : M bool :=
  switched ⇐ _switch_state 1 device_number e ;;
  (if switched : bool then set_relay_entry device_number (txt "1") else ret ()) ;;
  ret switched.

Definition turn_off (device_number : Text) (e : Env) : M bool :=
  switched ⇐ _switch_state 0 device_number e ;;
  (if switched : bool then set_relay_entry device_number (txt "0") else ret ()) ;;
  ret switched.

(** The two statements under [if match and len(match.groups()) == 3]. *)
Definition upsert (key name value : Text) (s : StateTable) : StateTable :=
  let s1 := match s !! key with
            | None => <[key := ∅]> s
            | Some _ => s
            end in
  <[key := <[name := value]> (default ∅ (s1 !! key))]> s1.

(** The body of the [for power_line in power_data] loop.  The three groups
    of the pattern are not optional, so a match binds all of them. *)
Definition update_line (power_line : bytes) : M unit :=
  match utf8_decode power_line with
  | None => raise UnicodeDecodeError
  | Some decoded =>
      let clean_result := remove_cr decoded in
      match re_match regex_status clean_result with
      | Some groups =>
          if (length groups =? 3)%nat then
            match groups with
            | [Some g0; Some g1; Some g2] =>
                modify_self (fun d => with_states (upsert g1 g0 g2 (_states d)) d)
            | _ => ret ()
            end
          else ret ()
      | None => ret ()
      end
  end.

(** [MpowerDevice.update] without its decorator. *)
Definition update_undecorated (e : Env) : M unit :=
  _connect e ;;
  d ⇐ get_self ;;
  if truthy (_ssh d) then
    sendline CMD_POWER_STATUS ;;
    prompt ;;
    let power_data := slice_1_m1 (split_nl (before e)) in
    for_each power_data update_line
  else ret ().

(** Modelled from the spec: the decorator [homeassistant.util.Throttle],
    which is not part of these sources.  The spec asks for "an explicit
    per-controller field storing last-refresh timestamp + minimum interval,
    checked at the top of refresh()", calls "arriving sooner" being "no-ops
    that return the table unchanged, not errors".  [now] is the clock at the
    call; the result tells whether the method ran. *)
Definition Throttle (min_time : Z) {A} (method : M A) (now : Z) : M (option A) :=
  d ⇐ get_self ;;
  if match _throttle d with
     | Some last => (now - last <? min_time)%Z
     | None => false
     end
  then ret None
  else
    r ⇐ method ;;
    modify_self (with_throttle (Some now)) ;;
    ret (Some r).

(** [MpowerDevice.update], decorated with [@Throttle(MIN_TIME_BETWEEN_UPDATES)]. *)
Definition update (now : Z) (e : Env) : M (option unit) :=
  Throttle MIN_TIME_BETWEEN_UPDATES (update_undecorated e) now.

(** ** [float] *)

(** Python floats are IEEE 754 binary64 numbers. *)
Definition prec : Z := 53.
Definition emax : Z := 1024.
Abbreviation float := spec_float.

Definition float_div : float → float → float := SFdiv prec emax.
Definition float_eq : float → float → bool := SFeqb.

(** The float of an integer (exact up to 2^53). *)
Definition float_of_int (n : Z) : float := binary_normalize prec emax n 0 false.

Fixpoint pow10 (k : nat) : positive :=
  match k with
  | O => 1%positive
  | S k' => (10 * pow10 k')%positive
  end.

(** The float nearest to [m / 10^k] (ties to even): the quotient of the two
    integers, rounded once. *)
Definition float_of_ratio10 (m : N) (k : nat) : float :=
  match m with
  | N0 => S754_zero false
  | Npos p => SFdiv prec emax (S754_finite false p 0) (S754_finite false (pow10 k) 0)
  end.

(** Value of a run of decimal digits, most significant first, on top of [acc]. *)
Fixpoint digits_value (acc : N) (t : Text) : option N :=
  match t with
  | [] => Some acc
  | c :: t' =>
      match digit_value c with
      | Some d => digits_value (acc * 10 + d) t'
      | None => None
      end
  end.

(** The text up to the first [.], and what follows that [.] if there is one. *)
Fixpoint split_dot (t : Text) : Text * option Text :=
  match t with
  | [] => ([], None)
  | c :: t' =>
      if c =? 46 then ([], Some t')
      else let '(a, b) := split_dot t' in (c :: a, b)
  end.

(** A text of the form [d+] or [d+.d+] as (all digits read as one integer,
    number of digits after the point). *)
Definition parse_decimal (t : Text) : option (N * nat) :=
  match split_dot t with
  | (a, None) =>
      match a with
      | [] => None
      | _ => (fun m => (m, O)) <$> digits_value 0 a
      end
  | (a, Some b) =>
      match a, b with
      | _ :: _, _ :: _ => (fun m => (m, length b)) <$> digits_value 0 (a ++ b)
      | _, _ => None
      end
  end.

(** [float(s)] for [s] a [str] of the form [d+] or [d+.d+], which is what the
    status pattern captures and what the relay writes store.  [float] reads
    further forms (signs, exponents, blanks around the number, [inf], [nan]);
    they are outside this model, which answers [ValueError] for every other
    text. *)
Definition py_float (s : Text) : outcome float :=
  match parse_decimal s with
  | Some (m, k) => Ret (float_of_ratio10 m k)
  | None => Raise ValueError
  end.

(** ** class MpowerOutlet *)

(** The outlet keeps a reference to its controller; the controller of the
    [World] is passed to the properties that read it. *)
Record MpowerOutlet := {
  _device_number : Text;
  _label : option Text;
  outlet_name : Text      (* [MpowerOutlet._name] *)
}.

(** ['{}_{}'.format(a, b)] *)
Definition format_pair (a b : Text) : Text := a ++ txt "_" ++ b.

(** Truth value of [label]: [None] and the empty [str] are false. *)
Definition label_truthy (label : option Text) : bool :=
  match label with
  | Some (_ :: _) => true
  | _ => false
  end.

(** [MpowerOutlet.__init__] *)
Definition MpowerOutlet_init (controller : MpowerDevice) (device_number : Text)
    (label : option Text) : MpowerOutlet :=
  {| _device_number := device_number;
     _label := label;
     outlet_name :=
       if label_truthy label
       then format_pair (_name controller) (default [] label)
       else format_pair (_name controller) device_number |}.

(** [MpowerOutlet.name] *)
Definition name (o : MpowerOutlet) : Text := outlet_name o.

(** [self._controller.states[self._device_number][metric]] *)
Definition read_metric (o : MpowerOutlet) (controller : MpowerDevice) (metric : Text)
    : outcome Text :=
  obind (getitem (_states controller) (_device_number o)) (fun m => getitem m metric).

(** [MpowerOutlet.is_on] *)
Definition is_on (o : MpowerOutlet) (controller : MpowerDevice) : outcome bool :=
  obind (read_metric o controller (txt "relay"))
        (fun v => Ret (bool_decide (v = txt "1"))).

(** [MpowerOutlet.current_power_mwh] *)
Definition current_power_mwh (o : MpowerOutlet) (controller : MpowerDevice)
    : outcome float :=
  obind (read_metric o controller (txt "active_pwr")) (fun raw =>
  obind (py_float raw) (fun f =>
  Ret (float_div f (float_of_int 1000)))).

(** The dict [device_state_attributes] builds, entries in source order. *)
Record attributes := {
  power_factor : float;
  energy_sum : float;
  voltage : float;
  power : float;
  current : float
}.

(** [MpowerOutlet.device_state_attributes] *)
Definition device_state_attributes (o : MpowerOutlet) (controller : MpowerDevice)
    : outcome attributes :=
  let metric m := obind (read_metric o controller (txt m)) py_float in
  obind (metric "pf") (fun a =>
  obind (metric "energy_sum") (fun b =>
  obind (metric "v_rms") (fun c =>
  obind (metric "active_pwr") (fun d =>
  obind (metric "i_rms") (fun e =>
  Ret {| power_factor := a; energy_sum := b; voltage := c; power := d; current := e |}))))).

(** [MpowerOutlet.turn_on], [turn_off], [update]: the controller's methods,
    their result dropped. *)
Definition outlet_turn_on (o : MpowerOutlet) (e : Env) : M unit :=
  turn_on (_device_number o) e ;; ret ().
Definition outlet_turn_off (o : MpowerOutlet) (e : Env) : M unit :=
  turn_off (_device_number o) e ;; ret ().
Definition outlet_update (o : MpowerOutlet) (now : Z) (e : Env) : M unit :=
  update now e ;; ret ().

(** ** The session of the tests: [MockSsh.before] *)

Definition crlf : string := String "013" (String "010" EmptyString).
Definition cr : string := String "013" EmptyString.

Definition mock_before : bytes :=
  lit_bytes (String.concat crlf
    ["cd /proc/power;grep '' pf* relay* v_rms* active_pwr* i_rms* energy_su" ++ cr;
     "m*"; "pf1:0.0"; "pf2:0.91073511"; "pf3:0.0"; "pf4:0.0"; "pf5:0.0"; "pf6:0.0";
     "relay1:1"; "relay2:1"; "relay3:1"; "relay4:0"; "relay5:1"; "relay6:1";
     "v_rms1:233.138035297"; "v_rms2:233.23304367"; "v_rms3:232.374885559";
     "v_rms4:233.049869537"; "v_rms5:232.89024353"; "v_rms6:233.143782615";
     "active_pwr1:0.0"; "active_pwr2:27.129834473"; "active_pwr3:0.0";
     "active_pwr4:0.0"; "active_pwr5:0.0"; "active_pwr6:0.0";
     "i_rms1:0.0"; "i_rms2:0.127721786"; "i_rms3:0.0"; "i_rms4:0.0"; "i_rms5:0.0";
     "i_rms6:0.0"; "energy_sum1:54.375"; "energy_sum2:124.6875"; "energy_sum3:0.0";
     "energy_sum4:23.4375"; "energy_sum5:0.0"; "energy_sum6:0.0"; ""]%string).

(** [MockSsh]: the login returns, [isalive()] is [False]. *)
Definition mock_ssh : Env :=
  {| isalive := false; login := LoginOk; before := mock_before |}.
(** [MockSshErrorEof] and [MockSshError]: the login raises. *)
Definition mock_ssh_error_eof : Env :=
  {| isalive := false; login := LoginEOF; before := [] |}.
Definition mock_ssh_error : Env :=
  {| isalive := false; login := LoginExceptionPxssh; before := [] |}.

(** The controller the tests build. *)
Definition test_device : MpowerDevice :=
  MpowerDevice_init (txt "name") (txt "host") (txt "username") (txt "password") 60.
Definition test_world : World := {| self := test_device; wire := [] |}.


(** ** Vocabulary of the properties *)

Definition set_ssh (o : option pxssh) (w : World) : World :=
  {| self := with_ssh o (self w); wire := wire w |}.

(** A session is available to a method call when [_connect] leaves one. *)
Definition session_available (e : Env) (w : World) : Prop :=
  truthy (_ssh (self (snd (_connect e w)))) = true.

(** The call has to log in (no session, or a dead one) and the login raises. *)
Definition connect_fails (e : Env) (w : World) : Prop :=
  (truthy (_ssh (self w)) = false ∨ isalive e = false) ∧ login e ≠ LoginOk.

Definition set_states (s : StateTable) (w : World) : World :=
  {| self := with_states s (self w); wire := wire w |}.
Definition sent (cmd : Text) (w : World) : World :=
  {| self := self w; wire := wire w ++ [cmd] |}.


(** The pattern as the specification words it,
    [^([a-z_]+)(\d+):(\d+(\.\d+)?)$]: metric name, outlet key, numeric
    value. *)
Definition lower_us (c : N) : Prop := 97 ≤ c ≤ 122 ∨ c = 95.

Definition decimal_run (t : Text) : Prop :=
  t ≠ [] ∧ Forall (fun c => is_decimal c = true) t.

Definition numeric_value (v : Text) : Prop :=
  decimal_run v ∨ ∃ a b, v = a ++ 46 :: b ∧ decimal_run a ∧ decimal_run b.

Definition status_line (t name key value : Text) : Prop :=
  t = name ++ key ++ 58 :: value
  ∧ name ≠ [] ∧ Forall lower_us name
  ∧ decimal_run key
  ∧ numeric_value value.

(** [StateTable[key][name] = value], a key seen for the first time getting a
    fresh per-outlet map. *)
Definition set_cell (key name value : Text) (s : StateTable) : StateTable :=
  <[key := <[name := value]> (default ∅ (s !! key))]> s.

(** [StateTable[key][name]] *)
Definition cell (s : StateTable) (key name : Text) : option Text :=
  s !! key ≫= fun m => m !! name.

(** What the specification asks of the parse of a list of lines: a line that
    (carriage returns removed) is a status line sets its cell, every other
    line leaves the table alone. *)
Inductive parsed_into : list bytes → StateTable → StateTable → Prop :=
| parsed_nil s : parsed_into [] s s
| parsed_metric line t n k v rest s s' :
    utf8_decode line = Some t →
    status_line (remove_cr t) n k v →
    parsed_into rest (set_cell k n v s) s' →
    parsed_into (line :: rest) s s'
| parsed_skip line t rest s s' :
    utf8_decode line = Some t →
    (∀ n k v, ¬ status_line (remove_cr t) n k v) →
    parsed_into rest s s' →
    parsed_into (line :: rest) s s'.

(** The write a decoded line asks for, as (key, name, value). *)
Definition line_write (t : Text) : option (Text * Text * Text) :=
  match re_match regex_status (remove_cr t) with
  | Some [Some g0; Some g1; Some g2] => Some (g1, g0, g2)
  | _ => None
  end.

(** The loop of [update] seen from the table. *)
Fixpoint parse_lines (ls : list bytes) (s : StateTable) : outcome () * StateTable :=
  match ls with
  | [] => (Ret (), s)
  | l :: ls' =>
      match utf8_decode l with
      | None => (Raise UnicodeDecodeError, s)
      | Some t =>
          parse_lines ls' (match line_write t with
                           | Some (k, n, v) => upsert k n v s
                           | None => s
                           end)
      end
  end.

(** The lines [update] looks at. *)
Definition power_data (e : Env) : list bytes := slice_1_m1 (split_nl (before e)).

(** The decorator lets the call through. *)
Definition throttled (now : Z) (w : World) : bool :=
  match _throttle (self w) with
  | Some last => (now - last <? MIN_TIME_BETWEEN_UPDATES)%Z
  | None => false
  end.

Definition set_throttle (t : option Z) (w : World) : World :=
  {| self := with_throttle t (self w); wire := wire w |}.

(** Every relay entry of the table is ["0"] or ["1"]. *)
Definition relay_ok (s : StateTable) : Prop :=
  ∀ k v, cell s k (txt "relay") = Some v → v = txt "0" ∨ v = txt "1".

(** A list of writes (key, name, value) applied in order. *)
Definition apply_writes (ws : list (Text * Text * Text)) (s : StateTable) : StateTable :=
  foldl (fun s '(k, n, v) => set_cell k n v s) s ws.

(** The last value the writes give to a cell, [acc] if they give none. *)
Fixpoint written (ws : list (Text * Text * Text)) (key name : Text) (acc : option Text)
    : option Text :=
  match ws with
  | [] => acc
  | (k, n, v) :: ws' =>
      written ws' key name (if decide (k = key ∧ n = name) then Some v else acc)
  end.

(** ** Worlds and sessions used as examples *)

Definition lf : string := String "010" EmptyString.

(** A session whose login returns and whose status dump is [resp]. *)
Definition answering (resp : string) : Env :=
  {| isalive := false; login := LoginOk; before := lit_bytes resp |}.

(** The world of the tests after a first refresh at time 0. *)
Definition polled_world : World := snd (update 0 mock_ssh test_world).

Definition with_before (b : bytes) (e : Env) : Env :=
  {| isalive := isalive e; login := login e; before := b |}.

(** A line that writes a relay entry writes ["0"] or ["1"] (decidable form
    of the condition under which a refresh keeps [relay_ok]). *)
Definition relay_line_ok (line : bytes) : bool :=
  match utf8_decode line with
  | Some t =>
      match line_write t with
      | Some (_, n, v) =>
          if decide (n = txt "relay") then bool_decide (v = txt "0" ∨ v = txt "1") else true
      | None => true
      end
  | None => true
  end.

(** Every value of the table is a text the status pattern can capture. *)
Definition values_numeric (s : StateTable) : Prop :=
  ∀ k n v, cell s k n = Some v → numeric_value v.

(** A table as the methods build it: the outlet keys are runs of decimal
    digits, no per-outlet map is empty, the metric names are runs of
    [a-z_] and the values are texts [float] reads. *)
Definition table_wf (s : StateTable) : Prop :=
  ∀ k m, s !! k = Some m →
    decimal_run k ∧ m ≠ ∅
    ∧ ∀ n v, m !! n = Some v → (n ≠ [] ∧ Forall lower_us n) ∧ numeric_value v.


(** ** [str.encode()], by which the tests build [before] *)

Definition byte_of_N (n : N) : byte := default x00 (Byte.of_N n).

(** The UTF-8 bytes of a code point; a surrogate or a value beyond U+10FFFF
    has none ([UnicodeEncodeError], or no such [str]). *)
Definition utf8_encode_char (c : N) : option bytes :=
  if c <? 0x80 then Some [byte_of_N c]
  else if c <? 0x800 then
    Some [byte_of_N (0xC0 + c / 64); byte_of_N (0x80 + c mod 64)]
  else if c <? 0x10000 then
    if in_range 0xD800 0xDFFF c then None
    else Some [byte_of_N (0xE0 + c / 4096); byte_of_N (0x80 + (c / 64) mod 64);
               byte_of_N (0x80 + c mod 64)]
  else if c <? 0x110000 then
    Some [byte_of_N (0xF0 + c / 262144); byte_of_N (0x80 + (c / 4096) mod 64);
          byte_of_N (0x80 + (c / 64) mod 64); byte_of_N (0x80 + c mod 64)]
  else None.

Fixpoint utf8_encode (t : Text) : option bytes :=
  match t with
  | [] => Some []
  | c :: t' =>
      match utf8_encode_char c, utf8_encode t' with
      | Some b, Some r => Some (b ++ r)
      | _, _ => None
      end
  end.

Definition byte_CR : byte := x0d.

(** [bs.replace(b'\r', b'')] *)
Definition remove_cr_bytes (bs : bytes) : bytes := filter (fun b => b ≠ byte_CR) bs.

(** ** [setup_platform] *)

(** [int(s)] for [s] a [str] of decimal digits, which is what the keys of
    the table are.  [int] reads further forms (a sign, blanks around the
    number, underscores); they are outside this model, which answers
    [ValueError] for every other text. *)
Definition py_int (s : Text) : outcome Z :=
  match s, digits_value 0 s with
  | _ :: _, Some n => Ret (Z.of_N n)
  | _, _ => Raise ValueError
  end.

(** An entry of the [labels] option: a dict with the keys ['name'], a
    [str], and ['device_number'], an [int]. *)
Record Label := {
  label_name : Text;
  label_device_number : Z
}.

(** The configuration once the schema has filled in the defaults; [labels]
    is optional and has none. *)
Record Config := {
  conf_host : Text;
  conf_name : Text;
  conf_username : Text;
  conf_password : Text;
  conf_timeout : Z;
  conf_labels : option (list Label)
}.

(** [[label['name'] for label in labels
      if label['device_number'] == int(device_number)]] *)
Fixpoint label_names (labels : list Label) (device_number : Text) : outcome (list Text) :=
  match labels with
  | [] => Ret []
  | label :: rest =>
      obind (py_int device_number) (fun n =>
      obind (label_names rest device_number) (fun names =>
      Ret (if (label_device_number label =? n)%Z
           then label_name label :: names else names)))
  end.

(** The loop [for device_number in controller.states]; [next(it, None)] is
    the head of the list. *)
Fixpoint make_outlets (controller : MpowerDevice) (labels : list Label)
    (device_numbers : list Text) : outcome (list MpowerOutlet) :=
  match device_numbers with
  | [] => Ret []
  | device_number :: rest =>
      obind (label_names labels device_number) (fun names =>
      obind (make_outlets controller labels rest) (fun devices =>
      Ret (MpowerOutlet_init controller device_number (head names) :: devices)))
  end.

(** [setup_platform]: the result is the list handed to [add_devices]; the
    world is the controller it made and what went to its session.  The order
    in which a dict yields its keys is the interpreter's; here it is the
    order in which the map lists them. *)
Definition setup_platform (config : Config) (now : Z) (e : Env)
    : outcome (list MpowerOutlet) * World :=
  let controller :=
    MpowerDevice_init (conf_name config) (conf_host config) (conf_username config)
                      (conf_password config) (conf_timeout config) in
  let labels := default [] (conf_labels config) in
  match update now e {| self := controller; wire := [] |} with
  | (Raise err, w) => (Raise err, w)
  | (Ret _, w) =>
      (make_outlets (self w) labels (map_to_list (_states (self w))).*1, w)
  end.

(** * Properties *)

Example re_match_demo :
  re_match regex_status (txt "active_pwr2:27.129834473")
  = Some [Some (txt "active_pwr"); Some (txt "2"); Some (txt "27.129834473")]
  ∧ re_match regex_status (txt "relay4:0") = Some [Some (txt "relay"); Some (txt "4"); Some (txt "0")]
  ∧ re_match regex_status (txt "m*") = None
  ∧ re_match regex_status (txt "pf1:0.") = None
  ∧ re_match regex_status (txt "relay1:1" ++ [LF]) = Some [Some (txt "relay"); Some (txt "1"); Some (txt "1")]
  ∧ re_match regex_status [112; 102; 0x661; 58; 0x662] = Some [Some (txt "pf"); Some [0x661]; Some [0x662]].
Proof. vm_compute. repeat split. Qed.

(** ** Lines of a response *)

Lemma byte_eqb_LF (b : byte) : Byte.eqb b byte_LF = bool_decide (b = byte_LF).
Proof.
  case_bool_decide as H.
  - by apply Byte.byte_dec_lb.
  - destruct (Byte.eqb b byte_LF) eqn:E; [|done]. by apply Byte.byte_dec_bl in E.
Qed.

Lemma split_nl_nonempty (bs : bytes) : split_nl bs ≠ [].
Proof. destruct bs as [|b r]; simpl; [done|]. destruct (Byte.eqb b byte_LF); [done|]. by destruct (split_nl r). Qed.

Lemma split_nl_line (l : bytes) : byte_LF ∉ l → split_nl l = [l].
Proof.
  induction l as [|b l IH]; intros H; simpl; [done|].
  apply not_elem_of_cons in H as [Hb Hl].
  rewrite byte_eqb_LF, bool_decide_eq_false_2 by done. by rewrite IH.
Qed.

Lemma split_nl_app (l r : bytes) :
  byte_LF ∉ l → split_nl (l ++ byte_LF :: r) = l :: split_nl r.
Proof.
  induction l as [|b l IH]; intros H; simpl.
  - done.
  - apply not_elem_of_cons in H as [Hb Hl].
    rewrite byte_eqb_LF, bool_decide_eq_false_2 by done. by rewrite IH.
Qed.

(** Splitting undoes joining when no line holds a newline. *)
Lemma split_nl_join_nl (ls : list bytes) :
  ls ≠ [] → Forall (fun l => byte_LF ∉ l) ls → split_nl (join_nl ls) = ls.
Proof.
  induction ls as [|l ls IH]; [done|]. intros _ H.
  apply Forall_cons in H as [Hl Hls].
  destruct ls as [|l' ls'].
  - simpl. by apply split_nl_line.
  - change (join_nl (l :: l' :: ls')) with (l ++ byte_LF :: join_nl (l' :: ls')).
    rewrite split_nl_app by done. by rewrite IH.
Qed.

(** No line of a split holds a newline. *)
Lemma split_nl_no_LF (bs : bytes) : Forall (fun l => byte_LF ∉ l) (split_nl bs).
Proof.
  induction bs as [|b r IH]; simpl.
  - repeat constructor. apply not_elem_of_nil.
  - rewrite byte_eqb_LF. case_bool_decide as Hb.
    + constructor; [apply not_elem_of_nil | done].
    + destruct (split_nl r) as [|l ls].
      { repeat constructor. by apply not_elem_of_cons; split; [|apply not_elem_of_nil]. }
      apply Forall_cons in IH as [Hl Hls]. constructor; [|done].
      by apply not_elem_of_cons.
Qed.

Lemma slice_1_m1_middle {A} (first last : A) (mid : list A) :
  slice_1_m1 (first :: mid ++ [last]) = mid.
Proof. unfold slice_1_m1. simpl. apply removelast_last. Qed.

Lemma slice_1_m1_short {A} (l : list A) : (length l ≤ 2)%nat → slice_1_m1 l = [].
Proof. destruct l as [|a [|b [|c l]]]; simpl; try done. lia. Qed.

(** ** Decoding *)

Lemma byte_to_N_LF (b : byte) : Byte.to_N b = LF → b = byte_LF.
Proof.
  intros H. pose proof (Byte.of_to_N b) as Hb. rewrite H in Hb.
  by injection Hb.
Qed.

Lemma cont_in_Some lo hi b c :
  cont_in lo hi b = Some c → 0x80 ≤ lo → c = Byte.to_N b - 0x80 ∧ lo ≤ Byte.to_N b ≤ hi.
Proof.
  unfold cont_in, in_range. intros H Hlo.
  destruct (lo <=? Byte.to_N b) eqn:E1; [|done].
  destruct (Byte.to_N b <=? hi) eqn:E2; [|done]. simpl in H.
  injection H as <-. apply N.leb_le in E1, E2. lia.
Qed.

(** A decoded text holds a newline only where the bytes do. *)
Lemma utf8_decode_no_LF (bs : bytes) (t : Text) :
  utf8_decode bs = Some t → byte_LF ∉ bs → LF ∉ t.
Proof.
  remember (length bs) as n eqn:Hn. revert bs t Hn.
  induction n as [n IH] using lt_wf_ind. intros bs t -> Hdec Hbs.
  destruct bs as [|b0 r0]; simpl in Hdec.
  { injection Hdec as <-. apply not_elem_of_nil. }
  apply not_elem_of_cons in Hbs as [Hb0 Hr0].
  destruct (Byte.to_N b0 <? 0x80) eqn:E0.
  { destruct (utf8_decode r0) as [t0|] eqn:Hr; [|done]. injection Hdec as <-.
    apply not_elem_of_cons. split.
    - intros Heq. apply Hb0. symmetry. by apply byte_to_N_LF.
    - eapply (IH (length r0)); eauto; simpl; lia. }
  destruct (in_range 0xC2 0xDF (Byte.to_N b0)) eqn:E1.
  { destruct r0 as [|b1 r1]; [done|].
    destruct (cont_in 0x80 0xBF b1) as [c1|] eqn:Hc1; [|done].
    destruct (utf8_decode r1) as [t1|] eqn:Hr; [|done]. injection Hdec as <-.
    apply not_elem_of_cons in Hr0 as [_ Hr1].
    unfold in_range in E1. apply andb_true_iff in E1 as [E1 _]. apply N.leb_le in E1.
    apply not_elem_of_cons. split.
    - unfold LF. lia.
    - eapply (IH (length r1)); eauto; simpl; lia. }
  destruct (in_range 0xE0 0xEF (Byte.to_N b0)) eqn:E2.
  { destruct r0 as [|b1 [|b2 r2]]; [done..|].
    destruct (cont_in _ _ b1) as [c1|] eqn:Hc1; [|done].
    destruct (cont_in 0x80 0xBF b2) as [c2|] eqn:Hc2; [|done].
    destruct (utf8_decode r2) as [t2|] eqn:Hr; [|done]. injection Hdec as <-.
    apply not_elem_of_cons in Hr0 as [_ Hr1].
    apply not_elem_of_cons in Hr1 as [_ Hr2].
    unfold in_range in E2. apply andb_true_iff in E2 as [E2 _]. apply N.leb_le in E2.
    apply not_elem_of_cons. split.
    - apply cont_in_Some in Hc1 as [-> Hc1]; [|by destruct (_ =? _)].
      destruct (Byte.to_N b0 =? 0xE0) eqn:E3.
      + apply N.eqb_eq in E3. unfold LF. lia.
      + apply N.eqb_neq in E3. unfold LF. lia.
    - eapply (IH (length r2)); eauto; simpl; lia. }
  destruct (in_range 0xF0 0xF4 (Byte.to_N b0)) eqn:E3; [|done].
  destruct r0 as [|b1 [|b2 [|b3 r3]]]; [done..|].
  destruct (cont_in _ _ b1) as [c1|] eqn:Hc1; [|done].
  destruct (cont_in 0x80 0xBF b2) as [c2|] eqn:Hc2; [|done].
  destruct (cont_in 0x80 0xBF b3) as [c3|] eqn:Hc3; [|done].
  destruct (utf8_decode r3) as [t3|] eqn:Hr; [|done]. injection Hdec as <-.
  apply not_elem_of_cons in Hr0 as [_ Hr1].
  apply not_elem_of_cons in Hr1 as [_ Hr2].
  apply not_elem_of_cons in Hr2 as [_ Hr3].
  unfold in_range in E3. apply andb_true_iff in E3 as [E3 _]. apply N.leb_le in E3.
  apply not_elem_of_cons. split.
  - apply cont_in_Some in Hc1 as [-> Hc1]; [|by destruct (_ =? _)].
    destruct (Byte.to_N b0 =? 0xF0) eqn:E4.
    + apply N.eqb_eq in E4. unfold LF. lia.
    + apply N.eqb_neq in E4. unfold LF. lia.
  - eapply (IH (length r3)); eauto; simpl; lia.
Qed.

Lemma remove_cr_no_LF (t : Text) : LF ∉ t → LF ∉ remove_cr t.
Proof. unfold remove_cr. intros H Hin. apply H. by apply list_elem_of_filter in Hin as [_ ?]. Qed.

(** ** The connection *)

Lemma world_eta (w : World) : {| self := self w; wire := wire w |} = w.
Proof. by destruct w. Qed.

Lemma with_ssh_id (d : MpowerDevice) : with_ssh (_ssh d) d = d.
Proof. by destruct d. Qed.

Lemma _connect_returns (e : Env) (w : World) :
  ∃ o, _connect e w = (Ret (), set_ssh o w).
Proof.
  destruct w as [d wr]. unfold _connect, bind, get_self, modify_self, ret, set_ssh. simpl.
  destruct (_ssh d) as [[]|] eqn:Hs; [destruct (isalive e)|]; simpl.
  - exists (Some Pxssh). by rewrite <- Hs, with_ssh_id.
  - destruct (login e); simpl; eauto.
  - destruct (login e); simpl; eauto.
Qed.

Lemma _connect_fails (e : Env) (w : World) :
  connect_fails e w → _connect e w = (Ret (), set_ssh None w).
Proof.
  destruct w as [d wr]. intros [Hdead Hlogin]. simpl in Hdead.
  unfold _connect, bind, get_self, modify_self, ret, set_ssh. simpl.
  destruct (_ssh d) as [[]|]; simpl in *.
  - destruct Hdead as [?| ->]; [done|]. simpl. by destruct (login e).
  - by destruct (login e).
Qed.

Lemma session_available_iff (e : Env) (w : World) :
  session_available e w ↔ ¬ connect_fails e w.
Proof.
  destruct w as [d wr]. unfold session_available, connect_fails, _connect, bind,
    get_self, modify_self, ret. simpl.
  destruct (_ssh d) as [[]|] eqn:Hs; simpl; [destruct (isalive e); simpl|];
    destruct (login e); simpl; rewrite ?Hs; simpl; intuition congruence.
Qed.

Lemma session_available_dec (e : Env) (w : World) :
  session_available e w ∨ connect_fails e w.
Proof.
  destruct (decide (truthy (_ssh (self (snd (_connect e w)))) = true)) as [H|H]; [by left|right].
  destruct w as [d wr]. revert H. unfold connect_fails, _connect, bind,
    get_self, modify_self, ret. simpl.
  destruct (_ssh d) as [[]|] eqn:Hs; simpl; [destruct (isalive e); simpl|];
    destruct (login e); simpl; rewrite ?Hs; simpl; intuition congruence.
Qed.

Lemma _connect_available (e : Env) (w : World) :
  session_available e w → _connect e w = (Ret (), set_ssh (Some Pxssh) w).
Proof.
  intros H. destruct (_connect_returns e w) as [o Ho].
  unfold session_available in H. rewrite Ho in *. simpl in H.
  by destruct o as [[]|].
Qed.

(** ** The relay writes *)

Lemma _switch_state_available state k e w :
  session_available e w →
  _switch_state state k e w = (Ret true, sent (CMD_RELAY state k) (set_ssh (Some Pxssh) w)).
Proof.
  intros H. unfold _switch_state, bind. by rewrite (_connect_available _ _ H).
Qed.

Lemma _switch_state_fails state k e w :
  connect_fails e w → _switch_state state k e w = (Ret false, set_ssh None w).
Proof.
  intros H. unfold _switch_state, bind. by rewrite (_connect_fails _ _ H).
Qed.

Lemma turn_on_available k e w :
  session_available e w →
  turn_on k e w =
    let w1 := sent (CMD_RELAY 1 k) (set_ssh (Some Pxssh) w) in
    match _states (self w) !! k with
    | Some m => (Ret true, set_states (<[k := <[txt "relay" := txt "1"]> m]> (_states (self w))) w1)
    | None => (Raise (KeyError k), w1)
    end.
Proof.
  intros H. unfold turn_on, bind at 1. rewrite (_switch_state_available _ _ _ _ H).
  unfold bind, set_relay_entry, bind, get_self, getitem. simpl.
  by destruct (_states (self w) !! k).
Qed.

Lemma turn_off_available k e w :
  session_available e w →
  turn_off k e w =
    let w1 := sent (CMD_RELAY 0 k) (set_ssh (Some Pxssh) w) in
    match _states (self w) !! k with
    | Some m => (Ret true, set_states (<[k := <[txt "relay" := txt "0"]> m]> (_states (self w))) w1)
    | None => (Raise (KeyError k), w1)
    end.
Proof.
  intros H. unfold turn_off, bind at 1. rewrite (_switch_state_available _ _ _ _ H).
  unfold bind, set_relay_entry, bind, get_self, getitem. simpl.
  by destruct (_states (self w) !! k).
Qed.

Lemma turn_on_fails k e w :
  connect_fails e w → turn_on k e w = (Ret false, set_ssh None w).
Proof.
  intros H. unfold turn_on, bind at 1. by rewrite (_switch_state_fails _ _ _ _ H).
Qed.

Lemma turn_off_fails k e w :
  connect_fails e w → turn_off k e w = (Ret false, set_ssh None w).
Proof.
  intros H. unfold turn_off, bind at 1. by rewrite (_switch_state_fails _ _ _ _ H).
Qed.
(** ** The status pattern *)

Lemma charset_has_lower (c : N) :
  charset_has lower_or_underscore c = true ↔ lower_us c.
Proof.
  change (charset_has lower_or_underscore c)
    with (((97 <=? c) && (c <=? 122)) || ((c =? 95) || false)).
  rewrite orb_false_r, orb_true_iff, andb_true_iff, !N.leb_le, N.eqb_eq. done.
Qed.

Lemma charset_has_digits (c : N) : charset_has digits c = is_decimal c.
Proof. unfold charset_has, digits. simpl. by rewrite orb_false_r. Qed.

Lemma decimal_zeros_bounds : Forall (fun z => z = 48 ∨ 0x660 ≤ z) decimal_zeros.
Proof. unfold decimal_zeros. repeat (constructor; [first [by left | right; lia]|]). constructor. Qed.

(** A decimal digit is an ASCII digit or lies beyond the Latin blocks. *)
Lemma is_decimal_bounds (c : N) : is_decimal c = true → 48 ≤ c ≤ 57 ∨ 0x660 ≤ c.
Proof.
  unfold is_decimal, digit_value. intros H. apply bool_decide_eq_true in H as [d Hd].
  destruct (List.find _ decimal_zeros) as [z|] eqn:Hf; [|done].
  apply find_some in Hf as [Hin Hz].
  pose proof decimal_zeros_bounds as HB. rewrite Forall_forall in HB.
  apply list_elem_of_In, HB in Hin.
  unfold in_range in Hz. apply andb_true_iff in Hz as [H1 H2]. apply N.leb_le in H1, H2. lia.
Qed.

Lemma is_decimal_not_lower (c : N) : is_decimal c = true → ¬ lower_us c.
Proof. intros H%is_decimal_bounds. unfold lower_us. lia. Qed.

Lemma plus_set_sound {A} cs s (k : Text → option A) r :
  plus_set cs s k = Some r →
  ∃ pre post, s = pre ++ post ∧ pre ≠ [] ∧ Forall (fun c => charset_has cs c = true) pre
              ∧ k post = Some r.
Proof.
  revert r. induction s as [|c s IH]; intros r; simpl; [done|].
  destruct (charset_has cs c) eqn:Hc; [|done].
  destruct (plus_set cs s k) as [r'|] eqn:Hp.
  - intros [= <-]. destruct (IH r' eq_refl) as (pre & post & -> & Hne & Hall & Hk).
    exists (c :: pre), post. repeat split; [done| by constructor | done].
  - intros Hk. exists [c], s. repeat split; [done| by repeat constructor | done].
Qed.

Lemma plus_set_complete {A} cs (k : Text → option A) pre post :
  pre ≠ [] → Forall (fun c => charset_has cs c = true) pre → is_Some (k post) →
  is_Some (plus_set cs (pre ++ post) k).
Proof.
  induction pre as [|c pre IH]; [done|]. intros _ Hall Hk.
  apply Forall_cons in Hall as [Hc Hall]. simpl. rewrite Hc.
  destruct pre as [|c' pre'].
  - simpl. by destruct (plus_set cs post k).
  - destruct (IH ltac:(done) Hall Hk) as [r ->]. eauto.
Qed.

Lemma take_app_minus {A} (pre post : list A) :
  take (length (pre ++ post) - length post) (pre ++ post) = pre.
Proof.
  rewrite length_app. replace (length pre + length post - length post)%nat with (length pre) by lia.
  by rewrite take_app_length.
Qed.

Lemma decimal_run_of (pre : Text) :
  pre ≠ [] → Forall (fun c => charset_has digits c = true) pre → decimal_run pre.
Proof.
  intros Hne Hall. split; [done|]. eapply Forall_impl; [exact Hall|].
  intros c Hc. cbv beta in Hc. by rewrite charset_has_digits in Hc.
Qed.

Lemma re_match_status_sound (t : Text) (g : list (option Text)) :
  LF ∉ t → re_match regex_status t = Some g →
  ∃ n k v, g = [Some n; Some k; Some v] ∧ status_line t n k v.
Proof.
  intros HLF. unfold re_match, regex_status. simpl. rewrite Nat.eqb_refl.
  intros (n & s1 & -> & Hn & Hnall & H1)%plus_set_sound.
  apply plus_set_sound in H1 as (k & s2 & -> & Hk & Hkall & H2).
  destruct s2 as [|c s3]; [done|].
  destruct (c =? 58) eqn:Hc; [|done]. apply N.eqb_eq in Hc as ->.
  rewrite !take_app_minus in H2. simpl in H2.
  assert (Hend : ∀ s (g0 : list (option Text)),
            match s with
            | [] => Some g0
            | [c] => if c =? LF then Some g0 else None
            | _ => None
            end = Some g → s ∈ [[]; [LF]] ∧ g0 = g).
  { intros [|c [|c' s']] g0 Hs; try done.
    - injection Hs as <-. split; [|done]. set_solver.
    - destruct (c =? LF) eqn:E; [|done]. apply N.eqb_eq in E as ->.
      injection Hs as <-. split; [|done]. set_solver. }
  assert (Hs3 : ∃ v tl, s3 = v ++ tl ∧ numeric_value v ∧ tl ∈ [[]; [LF]]
                 ∧ g = [Some n; Some k; Some v]).
  { destruct (plus_set digits s3 _) as [g'|] eqn:Ha in H2.
    - injection H2 as ->.
      apply plus_set_sound in Ha as (v & tl & -> & Hv & Hvall & Ha).
      rewrite take_app_minus in Ha. apply Hend in Ha as [Htl <-].
      exists v, tl. repeat split; try done. left. by eapply decimal_run_of.
    - clear Ha. apply plus_set_sound in H2 as (a & s4 & -> & Ha & Haall & H2).
      destruct s4 as [|c s5]; [done|].
      destruct (c =? 46) eqn:Hc; [|done]. apply N.eqb_eq in Hc as ->.
      apply plus_set_sound in H2 as (b & tl & -> & Hb & Hball & H2).
      replace (a ++ 46 :: b ++ tl) with ((a ++ 46 :: b) ++ tl) in H2
        by (by rewrite <- app_assoc).
      rewrite take_app_minus in H2. apply Hend in H2 as [Htl <-].
      exists (a ++ 46 :: b), tl. repeat split; try done.
      + by rewrite <- app_assoc.
      + right. exists a, b. repeat split; try done; by eapply decimal_run_of. }
  destruct Hs3 as (v & tl & -> & Hv & Htl & ->).
  assert (tl = []) as ->.
  { apply elem_of_cons in Htl as [->| Htl]; [done|].
    apply list_elem_of_singleton in Htl as ->. exfalso. apply HLF.
    rewrite !elem_of_app, !elem_of_cons, !elem_of_app. right. right. right. right.
    apply list_elem_of_singleton. done. }
  rewrite app_nil_r. exists n, k, v. split; [done|].
  repeat split; try done.
  - eapply Forall_impl; [exact Hnall|]. intros c Hc. by apply charset_has_lower.
  - by eapply decimal_run_of.
Qed.
Lemma re_match_status_complete (t n k v : Text) :
  status_line t n k v → is_Some (re_match regex_status t).
Proof.
  intros (-> & Hn & Hnall & [Hk Hkall] & Hv).
  assert (Hlow : Forall (fun c => charset_has lower_or_underscore c = true) n).
  { eapply Forall_impl; [exact Hnall|]. intros c Hc. by apply charset_has_lower. }
  assert (Hdig : ∀ r, Forall (fun c => is_decimal c = true) r →
                      Forall (fun c => charset_has digits c = true) r).
  { intros r Hr. eapply Forall_impl; [exact Hr|]. intros c Hc. cbv beta.
    by rewrite charset_has_digits. }
  unfold re_match, regex_status. simpl. rewrite Nat.eqb_refl.
  apply plus_set_complete; [done..|].
  apply plus_set_complete; [done|by apply Hdig|].
  simpl.
  match goal with |- is_Some (match ?x with Some _ => _ | None => _ end) =>
    destruct x as [res|] eqn:Hfirst end; [by eexists|].
  destruct Hv as [[Hv Hvall]|(a & b & -> & [Ha Haall] & [Hb Hball])].
  - exfalso.
    match type of Hfirst with plus_set _ _ ?K = None =>
      destruct (plus_set_complete digits K v [] Hv (Hdig _ Hvall)) as [res Hres] end.
    + by eexists.
    + rewrite app_nil_r in Hres. congruence.
  - apply plus_set_complete; [done|by apply Hdig|]. simpl.
    rewrite <- (app_nil_r b). apply plus_set_complete; [done|by apply Hdig|].
    by eexists.
Qed.

Lemma span_unique {A} (P : A → Prop) (a a' : list A) x x' r r' :
  Forall P a → Forall P a' → ¬ P x → ¬ P x' →
  a ++ x :: r = a' ++ x' :: r' → a = a' ∧ x = x' ∧ r = r'.
Proof.
  revert a'. induction a as [|y a IH]; intros [|y' a'] Ha Ha' Hx Hx' Heq; simpl in Heq.
  - by injection Heq.
  - injection Heq as -> _. apply Forall_cons in Ha' as [? _]. done.
  - injection Heq as -> _. apply Forall_cons in Ha as [? _]. done.
  - injection Heq as -> Heq. apply Forall_cons in Ha as [_ Ha].
    apply Forall_cons in Ha' as [_ Ha'].
    destruct (IH a' Ha Ha' Hx Hx' Heq) as (-> & -> & ->). done.
Qed.

Lemma not_decimal_colon : ¬ (is_decimal 58 = true).
Proof. intros H%is_decimal_bounds. lia. Qed.

(** A text is a status line in one way at most. *)
Lemma status_line_unique (t n k v n' k' v' : Text) :
  status_line t n k v → status_line t n' k' v' → n = n' ∧ k = k' ∧ v = v'.
Proof.
  intros (-> & _ & Hn & [Hk Hkall] & _) (Heq & _ & Hn' & [Hk' Hkall'] & _).
  destruct k as [|x k]; [done|]. destruct k' as [|x' k']; [done|].
  pose proof Hkall as Hkall0. pose proof Hkall' as Hkall0'.
  apply Forall_cons in Hkall as [Hx _]. apply Forall_cons in Hkall' as [Hx' _].
  simpl in Heq.
  apply (span_unique lower_us) in Heq as (<- & <- & Heq);
    [|done|done|by apply is_decimal_not_lower..].
  assert (x :: k ++ 58 :: v = x :: k' ++ 58 :: v') as Heq' by by rewrite Heq.
  apply (span_unique (fun c => is_decimal c = true) (x :: k) (x :: k')) in Heq'
    as (Hkk & _ & <-); [|done|done|apply not_decimal_colon..].
  done.
Qed.

(** On a text without newline, [re.match] with the pattern of the code finds
    exactly the status lines of the specification's pattern, and its three
    groups are the metric name, the outlet key and the value. *)
Lemma re_match_status (t : Text) (g : list (option Text)) :
  LF ∉ t →
  re_match regex_status t = Some g
  ↔ ∃ n k v, g = [Some n; Some k; Some v] ∧ status_line t n k v.
Proof.
  intros HLF. split; [by apply re_match_status_sound|].
  intros (n & k & v & -> & Hline).
  destruct (re_match_status_complete _ _ _ _ Hline) as [g' Hg'].
  destruct (re_match_status_sound _ _ HLF Hg') as (n' & k' & v' & -> & Hline').
  by destruct (status_line_unique _ _ _ _ _ _ _ Hline Hline') as (-> & -> & ->).
Qed.

Lemma re_match_status_None (t : Text) :
  LF ∉ t →
  re_match regex_status t = None ↔ ∀ n k v, ¬ status_line t n k v.
Proof.
  intros HLF. split.
  - intros Hnone n k v Hline.
    destruct (re_match_status_complete _ _ _ _ Hline) as [g' Hg']. congruence.
  - intros Hno. destruct (re_match regex_status t) as [g|] eqn:Hg; [|done].
    apply re_match_status_sound in Hg as (n & k & v & _ & Hline); [|done].
    by destruct (Hno n k v).
Qed.
(** ** The refresh *)

Lemma upsert_set_cell key name value s : upsert key name value s = set_cell key name value s.
Proof.
  unfold upsert, set_cell. destruct (s !! key) as [m|] eqn:Hk.
  - by rewrite Hk.
  - by rewrite lookup_insert_eq, insert_insert_eq.
Qed.

Lemma set_states_id (w : World) : set_states (_states (self w)) w = w.
Proof. by destruct w as [[] ?]. Qed.

Lemma update_line_eq (line : bytes) (w : World) :
  update_line line w =
    match utf8_decode line with
    | None => (Raise UnicodeDecodeError, w)
    | Some t =>
        (Ret (), match line_write t with
                 | Some (k, n, v) => set_states (upsert k n v (_states (self w))) w
                 | None => w
                 end)
    end.
Proof.
  unfold update_line, line_write. destruct (utf8_decode line) as [t|]; [|done].
  destruct (re_match regex_status (remove_cr t)) as [g|]; [|done].
  destruct g as [|[g0|] [|[g1|] [|[g2|] [|g3 g]]]]; done.
Qed.

Lemma for_each_update_line (ls : list bytes) (w : World) :
  for_each ls update_line w =
    (fst (parse_lines ls (_states (self w))),
     set_states (snd (parse_lines ls (_states (self w)))) w).
Proof.
  revert w. induction ls as [|l ls IH]; intros w; simpl.
  - unfold ret. by rewrite set_states_id.
  - unfold bind. rewrite update_line_eq.
    destruct (utf8_decode l) as [t|]; simpl; [|by rewrite set_states_id].
    rewrite IH. destruct (line_write t) as [[[k n] v]|]; done.
Qed.

Lemma update_undecorated_available (e : Env) (w : World) :
  session_available e w →
  update_undecorated e w =
    (fst (parse_lines (power_data e) (_states (self w))),
     set_states (snd (parse_lines (power_data e) (_states (self w))))
       (sent CMD_POWER_STATUS (set_ssh (Some Pxssh) w))).
Proof.
  intros H. unfold update_undecorated, bind at 1. rewrite (_connect_available _ _ H).
  unfold bind, get_self, sendline, prompt, ret. simpl.
  by rewrite for_each_update_line.
Qed.

Lemma update_undecorated_fails (e : Env) (w : World) :
  connect_fails e w → update_undecorated e w = (Ret (), set_ssh None w).
Proof.
  intros H. unfold update_undecorated, bind at 1. by rewrite (_connect_fails _ _ H).
Qed.

Lemma update_throttled now e w :
  throttled now w = true → update now e w = (Ret None, w).
Proof.
  unfold update, Throttle, throttled, bind, get_self. simpl. by intros ->.
Qed.

Lemma update_due now e w :
  throttled now w = false →
  update now e w =
    match update_undecorated e w with
    | (Ret r, w') => (Ret (Some r), set_throttle (Some now) w')
    | (Raise err, w') => (Raise err, w')
    end.
Proof.
  unfold update, Throttle, throttled, bind, get_self. simpl. intros ->.
  by destruct (update_undecorated e w) as [[r|err] w'].
Qed.

(** The parse of lines that all decode returns, and is the parse the
    specification describes. *)
Lemma parse_lines_parsed_into (ls : list bytes) (s : StateTable) :
  Forall (fun l => byte_LF ∉ l) ls →
  Forall (fun l => is_Some (utf8_decode l)) ls →
  fst (parse_lines ls s) = Ret () ∧ parsed_into ls s (snd (parse_lines ls s)).
Proof.
  revert s. induction ls as [|l ls IH]; intros s Hlf Hdec; simpl.
  - split; [done|constructor].
  - apply Forall_cons in Hlf as [Hl Hlf]. apply Forall_cons in Hdec as [[t Ht] Hdec].
    rewrite Ht. unfold line_write.
    assert (HLF : LF ∉ remove_cr t).
    { apply remove_cr_no_LF. by eapply utf8_decode_no_LF. }
    destruct (re_match regex_status (remove_cr t)) as [g|] eqn:Hg.
    + apply re_match_status in Hg as (n & k & v & -> & Hline); [|done].
      destruct (IH (upsert k n v s) Hlf Hdec) as [Hret Hpar]. split; [done|].
      eapply parsed_metric; eauto. by rewrite <- upsert_set_cell.
    + destruct (IH s Hlf Hdec) as [Hret Hpar]. split; [done|].
      eapply parsed_skip; eauto. by apply re_match_status_None.
Qed.

(** The specification's parse is a function of the lines and the table. *)
Lemma parsed_into_fun (ls : list bytes) (s s1 s2 : StateTable) :
  parsed_into ls s s1 → parsed_into ls s s2 → s1 = s2.
Proof.
  intros H1. revert s2. induction H1 as [s|line t n k v rest s s' Ht Hline _ IH
                                          |line t rest s s' Ht Hno _ IH]; intros s2 H2.
  - by inversion H2.
  - inversion H2 as [|? t' n' k' v' ? ? ? Ht' Hline' Hrest|? t' ? ? ? Ht' Hno' Hrest]; subst.
    + rewrite Ht in Ht'. injection Ht' as <-.
      destruct (status_line_unique _ _ _ _ _ _ _ Hline Hline') as (<- & <- & <-).
      by apply IH.
    + rewrite Ht in Ht'. injection Ht' as <-. by destruct (Hno' n k v).
  - inversion H2 as [|? t' n' k' v' ? ? ? Ht' Hline' Hrest|? t' ? ? ? Ht' Hno' Hrest]; subst.
    + rewrite Ht in Ht'. injection Ht' as <-. by destruct (Hno n' k' v').
    + by apply IH.
Qed.
(** ** Tables *)

Lemma lookup_set_cell key name value s k :
  set_cell key name value s !! k =
    if decide (key = k) then Some (<[name := value]> (default ∅ (s !! key))) else s !! k.
Proof.
  unfold set_cell. case_decide as H.
  - subst. by rewrite lookup_insert_eq.
  - by rewrite lookup_insert_ne.
Qed.

Lemma cell_set_cell key name value s k n :
  cell (set_cell key name value s) k n =
    if decide (key = k ∧ name = n) then Some value else cell s k n.
Proof.
  unfold cell. rewrite lookup_set_cell. case_decide as Hk.
  - subst. simpl. case_decide as Hn.
    + destruct Hn as [_ <-]. by rewrite lookup_insert_eq.
    + rewrite lookup_insert_ne by naive_solver. by destruct (s !! k).
  - case_decide as Hn; [naive_solver|done].
Qed.

Lemma is_Some_set_cell key name value s k :
  is_Some (set_cell key name value s !! k) ↔ key = k ∨ is_Some (s !! k).
Proof.
  rewrite lookup_set_cell. case_decide; [|naive_solver].
  split; [by left|]. by eexists.
Qed.

(** Two tables with the same keys and the same cells are equal. *)
Lemma table_eq (s1 s2 : StateTable) :
  (∀ k, is_Some (s1 !! k) ↔ is_Some (s2 !! k)) →
  (∀ k n, cell s1 k n = cell s2 k n) → s1 = s2.
Proof.
  intros Hdom Hcell. apply map_eq. intros k.
  specialize (Hdom k). pose proof (Hcell k) as Hk. unfold cell in Hk.
  destruct (s1 !! k) as [m1|], (s2 !! k) as [m2|]; simpl in *.
  - f_equal. apply map_eq. exact Hk.
  - destruct Hdom as [[? ?] _]; [by eexists|done].
  - destruct Hdom as [_ [? ?]]; [by eexists|done].
  - done.
Qed.

Lemma written_acc ws key name acc :
  written ws key name acc =
    match written ws key name None with
    | Some v => Some v
    | None => acc
    end.
Proof.
  revert acc. induction ws as [|[[k n] v] ws IH]; intros acc; simpl; [done|].
  case_decide.
  - rewrite (IH (Some v)). by destruct (written ws key name None).
  - apply IH.
Qed.

Lemma cell_apply_writes ws s key name :
  cell (apply_writes ws s) key name = written ws key name (cell s key name).
Proof.
  revert s. induction ws as [|[[k n] v] ws IH]; intros s; simpl; [done|].
  unfold apply_writes in *. simpl. by rewrite IH, cell_set_cell.
Qed.

Lemma is_Some_apply_writes ws s key :
  is_Some (apply_writes ws s !! key) ↔ key ∈ ws.*1.*1 ∨ is_Some (s !! key).
Proof.
  revert s. induction ws as [|[[k n] v] ws IH]; intros s; simpl.
  - rewrite elem_of_nil. naive_solver.
  - unfold apply_writes in *. simpl. rewrite IH, is_Some_set_cell, elem_of_cons. naive_solver.
Qed.

Lemma apply_writes_idempotent ws s :
  apply_writes ws (apply_writes ws s) = apply_writes ws s.
Proof.
  apply table_eq.
  - intros k. rewrite !is_Some_apply_writes. naive_solver.
  - intros k n. rewrite !cell_apply_writes.
    rewrite (written_acc ws k n (written _ _ _ _)), (written_acc ws k n (cell s k n)).
    by destruct (written ws k n None).
Qed.

(** A parse that returns is a list of writes that depends on the lines alone. *)
Lemma parse_lines_writes (ls : list bytes) (s : StateTable) :
  fst (parse_lines ls s) = Ret () →
  ∃ ws, ∀ s', parse_lines ls s' = (Ret (), apply_writes ws s').
Proof.
  revert s. induction ls as [|l ls IH]; intros s; simpl.
  - intros _. by exists [].
  - destruct (utf8_decode l) as [t|]; [|done].
    intros [ws Hws]%IH. destruct (line_write t) as [[[k n] v]|].
    + exists ((k, n, v) :: ws). intros s'. by rewrite Hws, upsert_set_cell.
    + exists ws. intros s'. by rewrite Hws.
Qed.

Lemma parse_lines_idempotent (ls : list bytes) (s : StateTable) :
  fst (parse_lines ls s) = Ret () →
  parse_lines ls (snd (parse_lines ls s)) = (Ret (), snd (parse_lines ls s)).
Proof.
  intros [ws Hws]%parse_lines_writes. rewrite !Hws. simpl.
  by rewrite apply_writes_idempotent.
Qed.
(** * The statements of the specification *)

(** ** The outlet's name *)

(** C7, counterexample.  With the label ["tv"] on the controller ["name"]
    the outlet is called ["name_tv"] (the value the tests expect), not
    ["tv"]: a label does not become the name as it is. *)
Lemma outlet_name_is_not_the_label :
  name (MpowerOutlet_init test_device (txt "2") (Some (txt "tv"))) = txt "name_tv"
  ∧ name (MpowerOutlet_init test_device (txt "2") (Some (txt "tv"))) ≠ txt "tv".
Proof. split; [reflexivity | by vm_compute]. Qed.

(** C7, amended.  The name of an outlet is always the controller's name, an
    underscore, and then the label when there is a non-empty one, the outlet
    key otherwise. *)
Theorem outlet_name_composite (controller : MpowerDevice) (device_number : Text)
    (label : option Text) :
  name (MpowerOutlet_init controller device_number label)
  = _name controller ++ txt "_" ++ match label with
                                   | Some (c :: l) => c :: l
                                   | _ => device_number
                                   end.
Proof. by destruct label as [[|c l]|]. Qed.

(** ** Relay writes *)

(** C2, counterexample.  On a controller that has not seen outlet 1 yet, with
    a session that logs in, [turn_on] raises [KeyError] instead of returning
    success. *)
Lemma relay_write_unknown_key_raises :
  session_available mock_ssh test_world
  ∧ fst (turn_on (txt "1") mock_ssh test_world) = Raise (KeyError (txt "1"))
  ∧ fst (turn_on (txt "1") mock_ssh test_world) ≠ Ret true.
Proof. split; [reflexivity|]. split; [reflexivity | by vm_compute]. Qed.

(** C2, amended.  For an outlet key present in the table, whatever its
    entries: with a session available [turn_on] and [turn_off] return [True]
    and set the relay entry of that key to ["1"] and ["0"], the rest of the
    table untouched; with no session they return [False] and leave the table
    as it is. *)
Theorem relay_write_known_key (device_number : Text) (e : Env) (w : World)
    (m : gmap Text Text) :
  _states (self w) !! device_number = Some m →
  (session_available e w →
     (fst (turn_on device_number e w) = Ret true
      ∧ _states (self (snd (turn_on device_number e w)))
        = <[device_number := <[txt "relay" := txt "1"]> m]> (_states (self w)))
     ∧ (fst (turn_off device_number e w) = Ret true
        ∧ _states (self (snd (turn_off device_number e w)))
          = <[device_number := <[txt "relay" := txt "0"]> m]> (_states (self w))))
  ∧ (¬ session_available e w →
     (fst (turn_on device_number e w) = Ret false
      ∧ _states (self (snd (turn_on device_number e w))) = _states (self w))
     ∧ (fst (turn_off device_number e w) = Ret false
        ∧ _states (self (snd (turn_off device_number e w))) = _states (self w))).
Proof.
  intros Hk. split; intros H.
  - rewrite (turn_on_available _ _ _ H), (turn_off_available _ _ _ H). simpl.
    by rewrite Hk.
  - destruct (session_available_dec e w) as [?|Hf]; [done|].
    by rewrite (turn_on_fails _ _ _ Hf), (turn_off_fails _ _ _ Hf).
Qed.

Lemma relay_write_known_key_witness :
  fst (turn_on (txt "4") mock_ssh polled_world) = Ret true
  ∧ cell (_states (self (snd (turn_on (txt "4") mock_ssh polled_world)))) (txt "4") (txt "relay")
    = Some (txt "1").
Proof.
  pose (m := default ∅ (_states (self polled_world) !! txt "4")).
  destruct (relay_write_known_key (txt "4") mock_ssh polled_world m) as [Hon _];
    [vm_compute; reflexivity|].
  destruct Hon as [[Hret Hst] _]; [reflexivity|].
  clearbody m. split; [exact Hret|]. rewrite Hst. unfold cell.
  by rewrite lookup_insert_eq; simpl; rewrite lookup_insert_eq.
Defined.

(** C9.  For an outlet key absent from the table and a session available,
    [turn_on] and [turn_off] write the relay command to the session and then
    raise [KeyError]: the command has gone out, the table is as before.  A
    relay write that returns [True] had its key in the table, whereas the
    refresh makes the per-outlet map of a key it meets for the first time. *)
Theorem relay_write_unknown_key (device_number : Text) (e : Env) (w : World) :
  _states (self w) !! device_number = None →
  session_available e w →
  (fst (turn_on device_number e w) = Raise (KeyError device_number)
   ∧ wire (snd (turn_on device_number e w)) = wire w ++ [CMD_RELAY 1 device_number]
   ∧ _states (self (snd (turn_on device_number e w))) = _states (self w))
  ∧ (fst (turn_off device_number e w) = Raise (KeyError device_number)
     ∧ wire (snd (turn_off device_number e w)) = wire w ++ [CMD_RELAY 0 device_number]
     ∧ _states (self (snd (turn_off device_number e w))) = _states (self w))
  ∧ (∀ k e' w', fst (turn_on k e' w') = Ret true ∨ fst (turn_off k e' w') = Ret true →
                is_Some (_states (self w') !! k))
  ∧ (∀ name value,
       upsert device_number name value (_states (self w)) !! device_number
       = Some {[name := value]}).
Proof.
  intros Hk H. rewrite (turn_on_available _ _ _ H), (turn_off_available _ _ _ H).
  simpl. rewrite Hk. simpl. repeat split.
  - intros k e' w' Hret.
    destruct (session_available_dec e' w') as [Ha|Hf].
    + rewrite (turn_on_available _ _ _ Ha), (turn_off_available _ _ _ Ha) in Hret.
      simpl in Hret. destruct (_states (self w') !! k); [by eexists|].
      by destruct Hret.
    + rewrite (turn_on_fails _ _ _ Hf), (turn_off_fails _ _ _ Hf) in Hret.
      by destruct Hret.
  - intros n v. rewrite upsert_set_cell, lookup_set_cell, decide_True by done.
    by rewrite Hk.
Qed.

Lemma relay_write_unknown_key_witness :
  fst (turn_on (txt "1") mock_ssh test_world) = Raise (KeyError (txt "1"))
  ∧ wire (snd (turn_on (txt "1") mock_ssh test_world)) = [txt "echo 1 > /proc/power/relay1"]
  ∧ _states (self (snd (turn_on (txt "1") mock_ssh test_world))) = ∅.
Proof.
  destruct (relay_write_unknown_key (txt "1") mock_ssh test_world) as [Hon _];
    [reflexivity | reflexivity | exact Hon].
Defined.

(** ** A connection that cannot be established *)

(** C4.  When the login raises [EOF] or [ExceptionPxssh], [_connect] clears
    the session and returns; the refresh returns with the table as it was
    (empty if it was never filled), and so do the undecorated refresh and a
    refresh the decorator holds back; afterwards [turn_on] and [turn_off],
    the login failing again, return [False], raise nothing and leave the
    table as it was. *)
Theorem failed_connection_degrades (now : Z) (e : Env) (w : World) :
  connect_fails e w →
  _connect e w = (Ret (), set_ssh None w)
  ∧ update_undecorated e w = (Ret (), set_ssh None w)
  ∧ (fst (update now e w) = Ret (if throttled now w then None else Some ())
     ∧ _states (self (snd (update now e w))) = _states (self w)
     ∧ wire (snd (update now e w)) = wire w
     ∧ (throttled now w = false → _ssh (self (snd (update now e w))) = None))
  ∧ (∀ k e', connect_fails e' (snd (update now e w)) →
       (fst (turn_on k e' (snd (update now e w))) = Ret false
        ∧ _states (self (snd (turn_on k e' (snd (update now e w))))) = _states (self w)
        ∧ _ssh (self (snd (turn_on k e' (snd (update now e w))))) = None)
       ∧ (fst (turn_off k e' (snd (update now e w))) = Ret false
          ∧ _states (self (snd (turn_off k e' (snd (update now e w))))) = _states (self w)
          ∧ _ssh (self (snd (turn_off k e' (snd (update now e w))))) = None)).
Proof.
  intros Hf.
  assert (Hup : fst (update now e w) = Ret (if throttled now w then None else Some ())
                ∧ _states (self (snd (update now e w))) = _states (self w)
                ∧ wire (snd (update now e w)) = wire w
                ∧ (throttled now w = false → _ssh (self (snd (update now e w))) = None)).
  { destruct (throttled now w) eqn:Ht.
    - by rewrite (update_throttled _ _ _ Ht).
    - by rewrite (update_due _ _ _ Ht), (update_undecorated_fails _ _ Hf). }
  split; [by apply _connect_fails|]. split; [by apply update_undecorated_fails|].
  split; [exact Hup|]. destruct Hup as (_ & Hst & _ & _).
  intros k e' Hf'. rewrite (turn_on_fails _ _ _ Hf'), (turn_off_fails _ _ _ Hf').
  simpl. by rewrite Hst.
Qed.

Lemma failed_connection_degrades_witness :
  fst (update 0 mock_ssh_error_eof test_world) = Ret (Some ())
  ∧ _states (self (snd (update 0 mock_ssh_error_eof test_world))) = ∅
  ∧ fst (turn_off (txt "1") mock_ssh_error (snd (update 0 mock_ssh_error_eof test_world)))
    = Ret false.
Proof.
  destruct (failed_connection_degrades 0 mock_ssh_error_eof test_world)
    as (_ & _ & (Hret & Hst & _) & Hnext).
  { split; [by left | discriminate]. }
  split; [exact Hret|]. split; [exact Hst|].
  destruct (Hnext (txt "1") mock_ssh_error) as [_ [Hoff _]]; [|exact Hoff].
  split; [by left | discriminate].
Defined.
(** ** The rate limit *)

Lemma wire_update_undecorated (e : Env) (w : World) :
  ∃ l, wire (snd (update_undecorated e w)) = wire w ++ l ∧ (l = [] ∨ l = [CMD_POWER_STATUS]).
Proof.
  destruct (session_available_dec e w) as [Ha|Hf].
  - rewrite (update_undecorated_available _ _ Ha). simpl. eauto.
  - rewrite (update_undecorated_fails _ _ Hf). simpl. exists []. by rewrite app_nil_r; eauto.
Qed.

Lemma wire_update (now : Z) (e : Env) (w : World) :
  ∃ l, wire (snd (update now e w)) = wire w ++ l ∧ (l = [] ∨ l = [CMD_POWER_STATUS]).
Proof.
  destruct (throttled now w) eqn:Ht.
  - rewrite (update_throttled _ _ _ Ht). simpl. exists []. by rewrite app_nil_r; eauto.
  - rewrite (update_due _ _ _ Ht).
    destruct (wire_update_undecorated e w) as (l & Hl & Hcases).
    destruct (update_undecorated e w) as [[r|err] w']; simpl in *; eauto.
Qed.

Lemma update_ran_throttle (now : Z) (e : Env) (w : World) :
  fst (update now e w) = Ret (Some ()) → _throttle (self (snd (update now e w))) = Some now.
Proof.
  destruct (throttled now w) eqn:Ht.
  - by rewrite (update_throttled _ _ _ Ht).
  - rewrite (update_due _ _ _ Ht). by destruct (update_undecorated e w) as [[r|err] w'].
Qed.

(** C3, counterexample.  Refreshes at 0 s, 4 s and 6 s: the one at 4 s is
    held back, the one at 6 s, two seconds after it, is six seconds after the
    last refresh that ran, so it runs: it writes the status command and
    changes the table.  The second of two calls less than the interval apart
    is not always a no-op. *)
Lemma refresh_after_throttled_call_runs :
  let w1 := snd (update 0 mock_ssh test_world) in
  let w2 := snd (update 4000000 mock_ssh w1) in
  let e3 := answering ("$ " ++ lf ++ "relay1:0" ++ lf) in
  (6000000 - 4000000 < MIN_TIME_BETWEEN_UPDATES)%Z
  ∧ fst (update 4000000 mock_ssh w1) = Ret None
  ∧ fst (update 6000000 e3 w2) = Ret (Some ())
  ∧ wire (snd (update 6000000 e3 w2)) = wire w2 ++ [CMD_POWER_STATUS]
  ∧ cell (_states (self w2)) (txt "1") (txt "relay") = Some (txt "1")
  ∧ cell (_states (self (snd (update 6000000 e3 w2)))) (txt "1") (txt "relay") = Some (txt "0").
Proof. by vm_compute. Qed.

(** C3, amended.  Modelled on the rate limit of the specification.  When the
    first of two refreshes returns and the second comes less than the minimum
    interval (5 s) after it, the two together write at most one status
    command; and when the first one ran (it was not held back itself), the
    second is a no-op: it returns, writes nothing, and leaves the controller,
    its table included, as it was. *)
Theorem second_refresh_is_noop (t1 t2 : Z) (e1 e2 : Env) (w : World) (r1 : option ()) :
  fst (update t1 e1 w) = Ret r1 →
  (t2 - t1 < MIN_TIME_BETWEEN_UPDATES)%Z →
  (r1 = Some () →
     update t2 e2 (snd (update t1 e1 w)) = (Ret None, snd (update t1 e1 w)))
  ∧ ∃ l, wire (snd (update t2 e2 (snd (update t1 e1 w)))) = wire w ++ l
         ∧ (l = [] ∨ l = [CMD_POWER_STATUS]).
Proof.
  intros Hret Hlt.
  assert (Hnoop : r1 = Some () →
            update t2 e2 (snd (update t1 e1 w)) = (Ret None, snd (update t1 e1 w))).
  { intros ->. apply update_throttled. unfold throttled.
    rewrite (update_ran_throttle _ _ _ Hret). by apply Z.ltb_lt. }
  split; [exact Hnoop|].
  destruct r1 as [[]|].
  - rewrite (Hnoop eq_refl). simpl. apply wire_update.
  - assert (snd (update t1 e1 w) = w) as ->; [|apply wire_update].
    destruct (throttled t1 w) eqn:Ht.
    + by rewrite (update_throttled _ _ _ Ht).
    + rewrite (update_due _ _ _ Ht) in Hret.
      by destruct (update_undecorated e1 w) as [[r|err] w'].
Qed.

Lemma second_refresh_is_noop_witness :
  update 4000000 mock_ssh polled_world = (Ret None, polled_world).
Proof.
  destruct (second_refresh_is_noop 0 4000000 mock_ssh mock_ssh test_world (Some ()))
    as [Hnoop _]; [by vm_compute | by vm_compute |].
  exact (Hnoop eq_refl).
Defined.

(** ** Parsing a status dump *)

(** C8.  When the loop over the lines of a dump returns (every line decodes),
    running it again on the same lines from the world it produced returns
    too and gives the same world, hence the same table. *)
Theorem parse_idempotent (lines : list bytes) (w w1 : World) :
  for_each lines update_line w = (Ret (), w1) →
  for_each lines update_line w1 = (Ret (), w1).
Proof.
  rewrite !for_each_update_line. intros [= Hret <-]. simpl.
  rewrite (parse_lines_idempotent _ _ Hret). simpl.
  by destruct w as [[] ?].
Qed.

Lemma parse_idempotent_witness :
  let w1 := snd (for_each (power_data mock_ssh) update_line test_world) in
  for_each (power_data mock_ssh) update_line w1 = (Ret (), w1).
Proof.
  intros w1. apply (parse_idempotent (power_data mock_ssh) test_world w1).
  vm_compute. reflexivity.
Defined.
Lemma Forall_slice_1_m1 {A} (P : A → Prop) (l : list A) :
  Forall P l → Forall P (slice_1_m1 l).
Proof.
  unfold slice_1_m1. intros H. destruct l as [|a l]; simpl; [done|].
  apply Forall_cons in H as [_ H]. induction H as [|x l Hx Hl IH]; simpl; [done|].
  destruct l; [done|]. by constructor.
Qed.

Lemma power_data_no_LF (e : Env) : Forall (fun l => byte_LF ∉ l) (power_data e).
Proof. apply Forall_slice_1_m1, split_nl_no_LF. Qed.

Lemma update_states_available (now : Z) (e : Env) (w : World) :
  throttled now w = false → session_available e w →
  _states (self (snd (update now e w)))
  = _states (self (snd (for_each (power_data e) update_line w))).
Proof.
  intros Ht Ha. rewrite (update_due _ _ _ Ht), (update_undecorated_available _ _ Ha).
  rewrite for_each_update_line. simpl.
  by destruct (fst (parse_lines (power_data e) (_states (self w)))).
Qed.

(** C1, counterexample.  In the response ["relay1:1\nrelay2:1\n"] the line
    ["relay1:1"] is a line of the split and a status line, and the refresh
    returns; yet the table gets no entry for outlet 1 (only the inner line,
    for outlet 2, is read). *)
Lemma refresh_skips_a_matching_line :
  let e := answering ("relay1:1" ++ lf ++ "relay2:1" ++ lf) in
  session_available e test_world
  ∧ lit_bytes "relay1:1" ∈ split_nl (before e)
  ∧ utf8_decode (lit_bytes "relay1:1") = Some (txt "relay1:1")
  ∧ status_line (remove_cr (txt "relay1:1")) (txt "relay") (txt "1") (txt "1")
  ∧ fst (update 0 e test_world) = Ret (Some ())
  ∧ cell (_states (self (snd (update 0 e test_world)))) (txt "1") (txt "relay") = None
  ∧ cell (_states (self (snd (update 0 e test_world)))) (txt "2") (txt "relay") = Some (txt "1").
Proof.
  intros e. split; [reflexivity|]. split; [by vm_compute; left|].
  split; [reflexivity|]. split; [|by vm_compute].
  change (remove_cr (txt "relay1:1")) with (txt "relay" ++ txt "1" ++ 58 :: txt "1").
  split; [done|]. split; [done|]. split.
  { unfold lower_us. repeat constructor; simpl; lia. }
  split; [by repeat constructor|]. left. by repeat constructor.
Qed.

(** A line that is not UTF-8 makes the refresh raise. *)
Lemma refresh_undecodable_line_raises :
  let e := {| isalive := false; login := LoginOk; before := [x24; x0a; xff; x0a; x24] |} in
  update 0 e test_world
  = (Raise UnicodeDecodeError,
     sent CMD_POWER_STATUS (set_ssh (Some Pxssh) test_world)).
Proof. by vm_compute. Qed.

(** C1, amended.  A refresh that is let through, with a session available,
    writes the status command and splits the response into lines; it sets the
    first and the last line aside and, the lines in between being UTF-8,
    returns having parsed them as the specification says: a line that,
    carriage returns removed, has the form name, key, [:], value sets that
    cell of the table, any other line changes nothing. *)
Theorem refresh_parses_inner_lines (now : Z) (e : Env) (w : World) :
  throttled now w = false →
  session_available e w →
  Forall (fun l => is_Some (utf8_decode l)) (slice_1_m1 (split_nl (before e))) →
  fst (update now e w) = Ret (Some ())
  ∧ parsed_into (slice_1_m1 (split_nl (before e)))
      (_states (self w)) (_states (self (snd (update now e w))))
  ∧ wire (snd (update now e w)) = wire w ++ [CMD_POWER_STATUS].
Proof.
  intros Ht Ha Hdec.
  destruct (parse_lines_parsed_into (power_data e) (_states (self w))
              (power_data_no_LF e) Hdec) as [Hret Hpar].
  rewrite (update_due _ _ _ Ht), (update_undecorated_available _ _ Ha).
  fold (power_data e). rewrite Hret. done.
Qed.

Lemma refresh_parses_inner_lines_witness :
  fst (update 0 mock_ssh test_world) = Ret (Some ())
  ∧ parsed_into (slice_1_m1 (split_nl mock_before)) ∅ (_states (self polled_world))
  ∧ wire polled_world = [CMD_POWER_STATUS].
Proof.
  apply (refresh_parses_inner_lines 0 mock_ssh test_world); [reflexivity..|].
  apply (bool_decide_unpack _). by vm_compute.
Defined.

(** C10.  A response being the lines [first], [mid...], [last] joined by
    newlines, a refresh that runs reads the lines [mid] and nothing else: the
    table it leaves is the one the loop gives on [mid], and replacing [first]
    and [last] by any other lines changes nothing in what the refresh does.
    A response of one or two lines leaves the table as it was, whatever the
    lines are. *)
Theorem first_and_last_line_dropped (now : Z) (e : Env) (w : World)
    (first last : bytes) (mid : list bytes) :
  Forall (fun l => byte_LF ∉ l) (first :: mid ++ [last]) →
  before e = join_nl (first :: mid ++ [last]) →
  throttled now w = false →
  session_available e w →
  slice_1_m1 (split_nl (before e)) = mid
  ∧ _states (self (snd (update now e w)))
    = _states (self (snd (for_each mid update_line w)))
  ∧ (∀ first' last', byte_LF ∉ first' → byte_LF ∉ last' →
       update now (with_before (join_nl (first' :: mid ++ [last'])) e) w = update now e w)
  ∧ (∀ lines, lines ≠ [] → Forall (fun l => byte_LF ∉ l) lines → (length lines ≤ 2)%nat →
       _states (self (snd (update now (with_before (join_nl lines) e) w)))
       = _states (self w)).
Proof.
  intros Hlf Hresp Ht Ha.
  assert (Hmid : ∀ f l, byte_LF ∉ f → byte_LF ∉ l →
            slice_1_m1 (split_nl (join_nl (f :: mid ++ [l]))) = mid).
  { intros f l Hf Hl. rewrite split_nl_join_nl; [apply slice_1_m1_middle|done|].
    apply Forall_cons in Hlf as [_ Hlf]. apply Forall_app in Hlf as [Hlf _].
    constructor; [done|]. apply Forall_app. split; [done|]. by constructor. }
  assert (Hfl : (byte_LF ∉ first) ∧ (byte_LF ∉ last)).
  { apply Forall_cons in Hlf as [? Hlf]. apply Forall_app in Hlf as [_ Hl].
    by apply Forall_cons in Hl as [? _]. }
  destruct Hfl as [Hf Hl].
  assert (Hdata : power_data e = mid).
  { unfold power_data. rewrite Hresp. by apply Hmid. }
  split; [exact Hdata|]. split; [|split].
  - by rewrite (update_states_available _ _ _ Ht Ha), Hdata.
  - intros f' l' Hf' Hl'.
    rewrite !(update_due _ _ _ Ht).
    rewrite (update_undecorated_available e _ Ha).
    rewrite (update_undecorated_available (with_before _ e) w) by exact Ha.
    assert (power_data (with_before (join_nl (f' :: mid ++ [l'])) e) = mid) as ->.
    { unfold power_data, with_before. cbn [before]. by apply Hmid. }
    by rewrite Hdata.
  - intros lines Hne Hlines Hlen.
    rewrite (update_states_available _ (with_before _ e) _ Ht) by exact Ha.
    unfold power_data, with_before. cbn [before]. rewrite split_nl_join_nl by done.
    by rewrite slice_1_m1_short.
Qed.

Lemma first_and_last_line_dropped_witness :
  let e := answering ("relay1:1" ++ lf ++ "relay2:1" ++ lf ++ "relay3:0") in
  slice_1_m1 (split_nl (before e)) = [lit_bytes "relay2:1"]
  ∧ _states (self (snd (update 0 e test_world)))
    = _states (self (snd (for_each [lit_bytes "relay2:1"] update_line test_world))).
Proof.
  intros e.
  destruct (first_and_last_line_dropped 0 e test_world
              (lit_bytes "relay1:1") (lit_bytes "relay3:0") [lit_bytes "relay2:1"])
    as (Hslice & Hst & _).
  - apply (bool_decide_unpack _). by vm_compute.
  - reflexivity.
  - reflexivity.
  - reflexivity.
  - split; [exact Hslice | exact Hst].
Defined.
(** ** The relay entries *)

Lemma relay_ok_set_cell k n v s :
  relay_ok s → (n = txt "relay" → v = txt "0" ∨ v = txt "1") → relay_ok (set_cell k n v s).
Proof.
  intros Hs Hv k' v'. rewrite cell_set_cell. case_decide as Hkn.
  - destruct Hkn as [_ Hn]. intros [= <-]. by apply Hv.
  - apply Hs.
Qed.

Lemma line_write_status (t k n v : Text) :
  LF ∉ remove_cr t → line_write t = Some (k, n, v) → status_line (remove_cr t) n k v.
Proof.
  intros HLF. unfold line_write.
  destruct (re_match regex_status (remove_cr t)) as [g|] eqn:Hg; [|done].
  apply re_match_status_sound in Hg as (n' & k' & v' & -> & Hline); [|done].
  by intros [= <- <- <-].
Qed.

Lemma status_line_write (t k n v : Text) :
  LF ∉ remove_cr t → status_line (remove_cr t) n k v → line_write t = Some (k, n, v).
Proof.
  intros HLF Hline. unfold line_write.
  assert (re_match regex_status (remove_cr t) = Some [Some n; Some k; Some v]) as ->; [|done].
  apply re_match_status; [done|]. by exists n, k, v.
Qed.

Lemma parse_lines_relay_ok (ls : list bytes) (s : StateTable) :
  Forall (fun l => byte_LF ∉ l) ls →
  (∀ line t k v, line ∈ ls → utf8_decode line = Some t →
     status_line (remove_cr t) (txt "relay") k v → v = txt "0" ∨ v = txt "1") →
  relay_ok s → relay_ok (snd (parse_lines ls s)).
Proof.
  revert s. induction ls as [|l ls IH]; intros s Hlf Hrel Hs; simpl; [done|].
  apply Forall_cons in Hlf as [Hl Hlf].
  destruct (utf8_decode l) as [t|] eqn:Ht; [|done].
  apply IH; [done| |].
  - intros line t' k v Hin. apply Hrel. by right.
  - destruct (line_write t) as [[[k n] v]|] eqn:Hw; [|done].
    rewrite upsert_set_cell. apply relay_ok_set_cell; [done|]. intros ->.
    apply (Hrel l t k v); [by left|done|].
    apply line_write_status; [|done].
    apply remove_cr_no_LF. by eapply utf8_decode_no_LF.
Qed.

Lemma relay_line_ok_sound (ls : list bytes) :
  Forall (fun l => byte_LF ∉ l) ls →
  forallb relay_line_ok ls = true →
  ∀ line t k v, line ∈ ls → utf8_decode line = Some t →
    status_line (remove_cr t) (txt "relay") k v → v = txt "0" ∨ v = txt "1".
Proof.
  intros Hlf Hok line t k v Hin Ht Hline.
  rewrite forallb_forall in Hok. specialize (Hok line). rewrite <- list_elem_of_In in Hok.
  specialize (Hok Hin). rewrite Forall_forall in Hlf. specialize (Hlf line Hin).
  unfold relay_line_ok in Hok. rewrite Ht in Hok.
  rewrite (status_line_write t k (txt "relay") v) in Hok; [|..|done].
  - rewrite decide_True in Hok by done. by apply bool_decide_eq_true in Hok.
  - apply remove_cr_no_LF. by eapply utf8_decode_no_LF.
Qed.

Lemma relay_ok_empty : relay_ok ∅.
Proof. intros k v. unfold cell. by rewrite lookup_empty. Qed.

(** C5, counterexample.  From the empty table, a refresh whose dump has the
    line ["relay1:2"] returns and leaves the relay entry of outlet 1 at
    ["2"]: the refresh stores what the dump says. *)
Lemma refresh_stores_any_relay_value :
  let e := answering ("$ " ++ lf ++ "relay1:2" ++ lf) in
  relay_ok (_states (self test_world))
  ∧ fst (update 0 e test_world) = Ret (Some ())
  ∧ cell (_states (self (snd (update 0 e test_world)))) (txt "1") (txt "relay") = Some (txt "2")
  ∧ ¬ relay_ok (_states (self (snd (update 0 e test_world)))).
Proof.
  intros e. split; [apply relay_ok_empty|]. split; [by vm_compute|].
  assert (Hc : cell (_states (self (snd (update 0 e test_world)))) (txt "1") (txt "relay")
               = Some (txt "2")) by by vm_compute.
  split; [exact Hc|]. intros Hok. by destruct (Hok _ _ Hc).
Qed.

(** C5, amended.  When every relay entry of the table is ["0"] or ["1"]:
    it is still so after [turn_on] and [turn_off], whatever they do (return
    or raise); and it is still so after a refresh, whatever it does, provided
    every inner line of the response that is a status line for [relay]
    carries the value ["0"] or ["1"] (the refresh stores the value of the
    dump as it is). *)
Theorem relay_entries_stay_binary (w : World) :
  relay_ok (_states (self w)) →
  (∀ k e, relay_ok (_states (self (snd (turn_on k e w))))
          ∧ relay_ok (_states (self (snd (turn_off k e w)))))
  ∧ (∀ now e,
       (∀ line t k v, line ∈ slice_1_m1 (split_nl (before e)) →
          utf8_decode line = Some t →
          status_line (remove_cr t) (txt "relay") k v → v = txt "0" ∨ v = txt "1") →
       relay_ok (_states (self (snd (update now e w))))).
Proof.
  intros Hw. split.
  - intros k e. destruct (session_available_dec e w) as [Ha|Hf].
    + rewrite (turn_on_available _ _ _ Ha), (turn_off_available _ _ _ Ha). simpl.
      destruct (_states (self w) !! k) as [m|] eqn:Hk; [|done]. simpl.
      assert (Hset : ∀ v, <[k := <[txt "relay" := v]> m]> (_states (self w))
                          = set_cell k (txt "relay") v (_states (self w))).
      { intros v. unfold set_cell. by rewrite Hk. }
      rewrite !Hset. split; apply relay_ok_set_cell; auto.
    + by rewrite (turn_on_fails _ _ _ Hf), (turn_off_fails _ _ _ Hf).
  - intros now e Hrel. destruct (throttled now w) eqn:Ht.
    { by rewrite (update_throttled _ _ _ Ht). }
    destruct (session_available_dec e w) as [Ha|Hf].
    + rewrite (update_states_available _ _ _ Ht Ha), for_each_update_line. simpl.
      apply parse_lines_relay_ok; [apply power_data_no_LF|exact Hrel|done].
    + by rewrite (update_due _ _ _ Ht), (update_undecorated_fails _ _ Hf).
Qed.

Lemma relay_entries_stay_binary_witness :
  relay_ok (_states (self polled_world))
  ∧ relay_ok (_states (self (snd (turn_on (txt "4") mock_ssh test_world)))).
Proof.
  destruct (relay_entries_stay_binary test_world relay_ok_empty) as [Hsw Hup].
  split.
  - apply (Hup 0%Z mock_ssh). apply relay_line_ok_sound; [apply power_data_no_LF|].
    by vm_compute.
  - apply (Hsw (txt "4") mock_ssh).
Defined.
(** ** Readings *)

Lemma digits_value_total (t : Text) (acc : N) :
  Forall (fun c => is_decimal c = true) t → is_Some (digits_value acc t).
Proof.
  revert acc. induction t as [|c t IH]; intros acc H; simpl; [by eexists|].
  apply Forall_cons in H as [Hc Ht].
  unfold is_decimal in Hc. apply bool_decide_eq_true in Hc as [d ->]. by apply IH.
Qed.

Lemma not_decimal_dot : ¬ (is_decimal 46 = true).
Proof. intros H%is_decimal_bounds. lia. Qed.

Lemma split_dot_run (t : Text) :
  Forall (fun c => is_decimal c = true) t → split_dot t = (t, None).
Proof.
  induction t as [|c t IH]; intros H; simpl; [done|].
  apply Forall_cons in H as [Hc Ht].
  destruct (c =? 46) eqn:E.
  - apply N.eqb_eq in E as ->. by destruct not_decimal_dot.
  - by rewrite IH.
Qed.

Lemma split_dot_point (a b : Text) :
  Forall (fun c => is_decimal c = true) a → split_dot (a ++ 46 :: b) = (a, Some b).
Proof.
  induction a as [|c a IH]; intros H; simpl; [done|].
  apply Forall_cons in H as [Hc Ha].
  destruct (c =? 46) eqn:E.
  - apply N.eqb_eq in E as ->. by destruct not_decimal_dot.
  - by rewrite IH.
Qed.

Lemma values_numeric_set_cell k n v s :
  values_numeric s → numeric_value v → values_numeric (set_cell k n v s).
Proof.
  intros Hs Hv k' n' v'. rewrite cell_set_cell. case_decide.
  - by intros [= <-].
  - apply Hs.
Qed.

Lemma parse_lines_values_numeric (ls : list bytes) (s : StateTable) :
  Forall (fun l => byte_LF ∉ l) ls →
  values_numeric s → values_numeric (snd (parse_lines ls s)).
Proof.
  revert s. induction ls as [|l ls IH]; intros s Hlf Hs; simpl; [done|].
  apply Forall_cons in Hlf as [Hl Hlf].
  destruct (utf8_decode l) as [t|] eqn:Ht; [|done].
  apply IH; [done|].
  destruct (line_write t) as [[[k n] v]|] eqn:Hw; [|done].
  rewrite upsert_set_cell. apply values_numeric_set_cell; [done|].
  apply line_write_status in Hw as (_ & _ & _ & _ & Hv); [done|].
  apply remove_cr_no_LF. by eapply utf8_decode_no_LF.
Qed.

Lemma numeric_bit (v : Text) : v = txt "0" ∨ v = txt "1" → numeric_value v.
Proof. intros [-> | ->]; left; (split; [discriminate | repeat constructor]). Qed.

(** The table of a new controller holds only values [float] reads, and the
    methods keep it so, whether they return or raise. *)
Lemma table_values_numeric (w : World) :
  values_numeric (_states (MpowerDevice_init [] [] [] [] 0))
  ∧ (values_numeric (_states (self w)) →
     ∀ now k e,
       values_numeric (_states (self (snd (update now e w))))
       ∧ values_numeric (_states (self (snd (turn_on k e w))))
       ∧ values_numeric (_states (self (snd (turn_off k e w))))).
Proof.
  split.
  { intros k n v. unfold cell. simpl. by rewrite lookup_empty. }
  intros Hw now k e. split; [|].
  - destruct (throttled now w) eqn:Ht.
    { by rewrite (update_throttled _ _ _ Ht). }
    destruct (session_available_dec e w) as [Ha|Hf].
    + rewrite (update_states_available _ _ _ Ht Ha), for_each_update_line. simpl.
      apply parse_lines_values_numeric; [apply power_data_no_LF|done].
    + by rewrite (update_due _ _ _ Ht), (update_undecorated_fails _ _ Hf).
  - destruct (session_available_dec e w) as [Ha|Hf].
    + rewrite (turn_on_available _ _ _ Ha), (turn_off_available _ _ _ Ha). simpl.
      destruct (_states (self w) !! k) as [m|] eqn:Hk; [|done]. simpl.
      assert (Hset : ∀ v, <[k := <[txt "relay" := v]> m]> (_states (self w))
                          = set_cell k (txt "relay") v (_states (self w))).
      { intros v. unfold set_cell. by rewrite Hk. }
      rewrite !Hset.
      split; (apply values_numeric_set_cell; [done|apply numeric_bit; auto]).
    + by rewrite (turn_on_fails _ _ _ Hf), (turn_off_fails _ _ _ Hf).
Qed.

(** [float] reads every value the status pattern can capture. *)
Lemma py_float_numeric_value (v : Text) :
  numeric_value v → ∃ f, py_float v = Ret f.
Proof.
  unfold py_float, parse_decimal.
  intros [[Hne Hall]|(a & b & -> & [Ha Haall] & [Hb Hball])].
  - rewrite split_dot_run by done. destruct v as [|c v]; [done|].
    destruct (digits_value_total (c :: v) 0 Hall) as [m ->]. simpl. eauto.
  - rewrite split_dot_point by done.
    destruct a as [|c a]; [done|]. destruct b as [|c' b]; [done|].
    destruct (digits_value_total ((c :: a) ++ c' :: b) 0) as [m ->].
    + apply Forall_app. by split.
    + simpl. eauto.
Qed.

Lemma read_metric_eq (o : MpowerOutlet) (controller : MpowerDevice)
    (m : gmap Text Text) (metric v : Text) :
  _states controller !! _device_number o = Some m → m !! metric = Some v →
  read_metric o controller metric = Ret v.
Proof. intros Hm Hv. unfold read_metric, getitem. rewrite Hm. simpl. by rewrite Hv. Qed.

(** The literals of the tests, read as Python reads them. *)
Lemma float_literals :
  py_float (txt "0.027129834473") = Ret (S754_finite false 7819642395086466 (-58))
  ∧ py_float (txt "0.91073511") = Ret (S754_finite false 8203172604058455 (-53))
  ∧ py_float (txt "27.129834473") = Ret (S754_finite false 7636369526451627 (-48)).
Proof. by vm_compute. Qed.

(** C6.  For an outlet whose key is in the table with an [active_pwr] entry
    (a value the status pattern can capture, as every value of a table the
    methods filled is: [table_values_numeric]), [current_power_mwh] returns the
    entry read as a float and divided by the float 1000.  In particular,
    when the entries of the outlet are relay ["1"], active_pwr
    ["27.129834473"] and pf ["0.91073511"], [is_on] is [True],
    [current_power_mwh] is the float [0.027129834473] and, the three other
    metrics being there too, the attributes are returned with a
    [power_factor] that is the float [0.91073511]. *)
Theorem current_power_reading (o : MpowerOutlet) (controller : MpowerDevice)
    (m : gmap Text Text) (raw : Text) :
  _states controller !! _device_number o = Some m →
  m !! txt "active_pwr" = Some raw →
  numeric_value raw →
  (∃ f, py_float raw = Ret f
        ∧ current_power_mwh o controller = Ret (float_div f (float_of_int 1000)))
  ∧ (m !! txt "relay" = Some (txt "1") →
     raw = txt "27.129834473" →
     m !! txt "pf" = Some (txt "0.91073511") →
     is_on o controller = Ret true
     ∧ current_power_mwh o controller = py_float (txt "0.027129834473")
     ∧ ∀ es vr ir,
         m !! txt "energy_sum" = Some es → numeric_value es →
         m !! txt "v_rms" = Some vr → numeric_value vr →
         m !! txt "i_rms" = Some ir → numeric_value ir →
         ∃ a, device_state_attributes o controller = Ret a
              ∧ Ret (power_factor a) = py_float (txt "0.91073511")
              ∧ Ret (power a) = py_float raw).
Proof.
  intros Hm Hraw Hnum. split.
  - destruct (py_float_numeric_value raw Hnum) as [f Hf]. exists f. split; [done|].
    unfold current_power_mwh. rewrite (read_metric_eq _ _ _ _ _ Hm Hraw). simpl.
    by rewrite Hf.
  - intros Hrelay -> Hpf. split; [|split].
    + unfold is_on. by rewrite (read_metric_eq _ _ _ _ _ Hm Hrelay).
    + unfold current_power_mwh. rewrite (read_metric_eq _ _ _ _ _ Hm Hraw).
      by vm_compute.
    + intros es vr ir Hes Hesn Hvr Hvrn Hir Hirn.
      destruct (py_float_numeric_value es Hesn) as [fes Hfes].
      destruct (py_float_numeric_value vr Hvrn) as [fvr Hfvr].
      destruct (py_float_numeric_value ir Hirn) as [fir Hfir].
      destruct float_literals as (_ & Hlit_pf & Hlit_pwr).
      unfold device_state_attributes.
      rewrite (read_metric_eq _ _ _ _ _ Hm Hpf), (read_metric_eq _ _ _ _ _ Hm Hes),
        (read_metric_eq _ _ _ _ _ Hm Hvr), (read_metric_eq _ _ _ _ _ Hm Hraw),
        (read_metric_eq _ _ _ _ _ Hm Hir).
      cbn [obind]. rewrite Hfes, Hfvr, Hfir, Hlit_pf, Hlit_pwr. cbn [obind]. eauto.
Qed.
(** A concrete text is a numeric value. *)
Ltac numeric_text a b :=
  right; exists (txt a), (txt b);
  split; [reflexivity | split; (split; [discriminate | repeat constructor])].

Lemma current_power_reading_witness :
  let c := self polled_world in
  let o := MpowerOutlet_init c (txt "2") (Some (txt "tv")) in
  is_on o c = Ret true
  ∧ current_power_mwh o c = py_float (txt "0.027129834473")
  ∧ ∃ a, device_state_attributes o c = Ret a
         ∧ Ret (power_factor a) = py_float (txt "0.91073511").
Proof.
  intros c o.
  pose (m := default ∅ (_states c !! txt "2")).
  destruct (current_power_reading o c m (txt "27.129834473")) as [_ Hscen].
  - vm_compute. reflexivity.
  - vm_compute. reflexivity.
  - numeric_text "27" "129834473".
  - destruct Hscen as (Hon & Hpwr & Hattr);
      [vm_compute; reflexivity | reflexivity | vm_compute; reflexivity |].
    split; [exact Hon|]. split; [exact Hpwr|].
    destruct (Hattr (txt "124.6875") (txt "233.23304367") (txt "0.127721786"))
      as (a & Ha & Hpf & _).
    + vm_compute. reflexivity.
    + numeric_text "124" "6875".
    + vm_compute. reflexivity.
    + numeric_text "233" "23304367".
    + vm_compute. reflexivity.
    + numeric_text "0" "127721786".
    + exists a. by split.
Defined.
(** * Further properties of the module *)

(** ** The status pattern and the split *)

(** X1.  On a text without newline, [re.match] with the pattern of the
    module returns groups exactly when the text has the form name, key, [:],
    value; the groups are then these three, in this order, so that the test
    [len(match.groups()) == 3] never fails; and it returns [None] exactly
    when the text has that form in no way. *)
Theorem status_pattern_language (t : Text) :
  LF ∉ t →
  (∀ g, re_match regex_status t = Some g →
        ∃ n k v, g = [Some n; Some k; Some v] ∧ length g = 3%nat)
  ∧ (∀ n k v, re_match regex_status t = Some [Some n; Some k; Some v]
              ↔ status_line t n k v)
  ∧ (re_match regex_status t = None ↔ ∀ n k v, ¬ status_line t n k v).
Proof.
  intros HLF. split; [|split].
  - intros g Hg. apply re_match_status_sound in Hg as (n & k & v & -> & _); [|done].
    by exists n, k, v.
  - intros n k v. rewrite re_match_status by done. split.
    + by intros (n' & k' & v' & [= -> -> ->] & H).
    + intros H. by exists n, k, v.
  - by apply re_match_status_None.
Qed.

Lemma status_pattern_language_witness :
  re_match regex_status (txt "v_rms6:233.143782615") = Some [Some (txt "v_rms"); Some (txt "6"); Some (txt "233.143782615")]
  ↔ status_line (txt "v_rms6:233.143782615") (txt "v_rms") (txt "6") (txt "233.143782615").
Proof.
  destruct (status_pattern_language (txt "v_rms6:233.143782615")) as (_ & H & _).
  - apply (bool_decide_unpack _). vm_compute. reflexivity.
  - apply H.
Defined.

Lemma join_nl_cons (l : bytes) (ls : list bytes) :
  ls ≠ [] → join_nl (l :: ls) = l ++ byte_LF :: join_nl ls.
Proof. by destruct ls. Qed.

(** X2.  Splitting a response at the newlines loses nothing: joining the
    lines with newlines gives the response back; no line holds a newline;
    and there is one line more than there are newlines, so that the slice
    [[1:-1]] is empty unless the response has two newlines at least. *)
Theorem split_nl_round_trip (bs : bytes) :
  join_nl (split_nl bs) = bs
  ∧ Forall (fun l => byte_LF ∉ l) (split_nl bs)
  ∧ length (split_nl bs) = S (length (filter (fun b => b = byte_LF) bs))
  ∧ length (slice_1_m1 (split_nl bs))
    = (length (filter (fun b => b = byte_LF) bs) - 1)%nat.
Proof.
  assert (Hjoin : join_nl (split_nl bs) = bs).
  { induction bs as [|b r IH]; simpl; [done|].
    rewrite byte_eqb_LF. case_bool_decide as Hb.
    - subst b. rewrite join_nl_cons by apply split_nl_nonempty. simpl. by rewrite IH.
    - pose proof (split_nl_nonempty r) as Hne.
      destruct (split_nl r) as [|l ls]; [done|].
      destruct ls as [|l' ls']; simpl in *; by rewrite <- IH. }
  assert (Hlen : length (split_nl bs) = S (length (filter (fun b => b = byte_LF) bs))).
  { clear Hjoin. induction bs as [|b r IH]; simpl; [done|].
    rewrite byte_eqb_LF. case_bool_decide as Hb.
    - rewrite filter_cons_True by done. simpl. by rewrite IH.
    - rewrite filter_cons_False by done.
      pose proof (split_nl_nonempty r) as Hne.
      destruct (split_nl r) as [|l ls]; [done|]. exact IH. }
  split; [done|]. split; [apply split_nl_no_LF|]. split; [done|].
  unfold slice_1_m1. destruct (split_nl bs) as [|l ls]; [done|]. simpl in *.
  injection Hlen as <-. clear.
  induction ls as [|x ls IH]; simpl; [done|]. destruct ls; simpl in *; lia.
Qed.
(** ** What a refresh does to the table *)

Lemma parse_lines_app (pre rest : list bytes) (s : StateTable) :
  fst (parse_lines pre s) = Ret () →
  parse_lines (pre ++ rest) s = parse_lines rest (snd (parse_lines pre s)).
Proof.
  revert s. induction pre as [|l pre IH]; intros s; simpl; [done|].
  destruct (utf8_decode l) as [t|]; [|done]. apply IH.
Qed.

Lemma parse_lines_all_decode (ls : list bytes) (s : StateTable) :
  Forall (fun l => is_Some (utf8_decode l)) ls → fst (parse_lines ls s) = Ret ().
Proof.
  revert s. induction ls as [|l ls IH]; intros s H; simpl; [done|].
  apply Forall_cons in H as [[t ->] H]. by apply IH.
Qed.

(** The cells no line writes keep their value. *)
Lemma parse_lines_frame (ls : list bytes) (s : StateTable) (k n : Text) :
  Forall (fun l => byte_LF ∉ l) ls →
  (∀ l t v, l ∈ ls → utf8_decode l = Some t → ¬ status_line (remove_cr t) n k v) →
  cell (snd (parse_lines ls s)) k n = cell s k n.
Proof.
  revert s. induction ls as [|l ls IH]; intros s Hlf Hno; simpl; [done|].
  apply Forall_cons in Hlf as [Hl Hlf].
  destruct (utf8_decode l) as [t|] eqn:Ht; [|done].
  rewrite IH; [|done|intros l' t' v' Hin; apply Hno; by right].
  destruct (line_write t) as [[[k' n'] v']|] eqn:Hw; [|done].
  rewrite upsert_set_cell, cell_set_cell. case_decide as Hkn; [|done].
  destruct Hkn as [-> ->]. exfalso. apply (Hno l t v'); [by left|done|].
  apply line_write_status; [|done].
  apply remove_cr_no_LF. by eapply utf8_decode_no_LF.
Qed.

Lemma update_states (now : Z) (e : Env) (w : World) :
  _states (self (snd (update now e w))) = _states (self w)
  ∨ _states (self (snd (update now e w)))
    = snd (parse_lines (power_data e) (_states (self w))).
Proof.
  destruct (throttled now w) eqn:Ht.
  { left. by rewrite (update_throttled _ _ _ Ht). }
  destruct (session_available_dec e w) as [Ha|Hf].
  - right. by rewrite (update_states_available _ _ _ Ht Ha), for_each_update_line.
  - left. by rewrite (update_due _ _ _ Ht), (update_undecorated_fails _ _ Hf).
Qed.

(** X3.  A refresh changes no cell but those its inner lines name: when no
    inner line of the response is a status line for the metric [n] of the
    outlet [k], the cell [k], [n] is after the call what it was before,
    whether the call returns, is held back, finds no session or raises. *)
Theorem refresh_leaves_other_cells (now : Z) (e : Env) (w : World) (k n : Text) :
  (∀ l t v, l ∈ slice_1_m1 (split_nl (before e)) → utf8_decode l = Some t →
            ¬ status_line (remove_cr t) n k v) →
  cell (_states (self (snd (update now e w)))) k n = cell (_states (self w)) k n.
Proof.
  intros Hno. destruct (update_states now e w) as [-> | ->]; [done|].
  apply parse_lines_frame; [apply power_data_no_LF|exact Hno].
Qed.

Lemma status_line_no_match_other (t n k v n' k' v' : Text) :
  status_line t n k v → (n', k') ≠ (n, k) → ¬ status_line t n' k' v'.
Proof.
  intros H Hne H'. destruct (status_line_unique _ _ _ _ _ _ _ H H') as (-> & -> & _).
  done.
Qed.

Lemma refresh_leaves_other_cells_witness :
  cell (_states (self (snd (update 0 (answering ("$ " ++ lf ++ "relay1:0" ++ lf)) polled_world))))
       (txt "2") (txt "relay")
  = cell (_states (self polled_world)) (txt "2") (txt "relay").
Proof.
  apply (refresh_leaves_other_cells 0 (answering ("$ " ++ lf ++ "relay1:0" ++ lf))
           polled_world (txt "2") (txt "relay")).
  intros l t v Hl. apply list_elem_of_singleton in Hl as ->. intros [= <-].
  apply (status_line_no_match_other _ (txt "relay") (txt "1") (txt "0")); [|discriminate].
  change (remove_cr (txt "relay1:0")) with (txt "relay" ++ txt "1" ++ 58 :: txt "0").
  split; [done|]. split; [done|]. split.
  { unfold lower_us. repeat constructor; simpl; lia. }
  split; [by repeat constructor|]. left. by repeat constructor.
Defined.

(** X4.  The last line wins.  When the inner lines all decode and one of
    them is a status line giving the value [v] to the metric [n] of the
    outlet [k], no later inner line being a status line for that metric of
    that outlet, a refresh that runs with a session returns and leaves [v]
    in that cell, whatever was there and whatever earlier lines said. *)
Theorem refresh_last_line_wins (now : Z) (e : Env) (w : World)
    (pre post : list bytes) (line : bytes) (t n k v : Text) :
  throttled now w = false →
  session_available e w →
  slice_1_m1 (split_nl (before e)) = pre ++ line :: post →
  Forall (fun l => is_Some (utf8_decode l)) (pre ++ post) →
  utf8_decode line = Some t →
  status_line (remove_cr t) n k v →
  (∀ l t' v', l ∈ post → utf8_decode l = Some t' → ¬ status_line (remove_cr t') n k v') →
  fst (update now e w) = Ret (Some ())
  ∧ cell (_states (self (snd (update now e w)))) k n = Some v.
Proof.
  intros Ht Ha Hdata Hdec Hline Hstatus Hpost.
  apply Forall_app in Hdec as [Hpre Hpostd].
  pose proof (power_data_no_LF e) as Hlf. unfold power_data in Hlf. rewrite Hdata in Hlf.
  apply Forall_app in Hlf as [_ Hlf]. apply Forall_cons in Hlf as [Hl Hlf].
  assert (Hw : line_write t = Some (k, n, v)).
  { apply status_line_write; [|done]. apply remove_cr_no_LF. by eapply utf8_decode_no_LF. }
  rewrite (update_due _ _ _ Ht), (update_undecorated_available _ _ Ha).
  unfold power_data. rewrite Hdata.
  rewrite (parse_lines_app pre) by by apply parse_lines_all_decode.
  simpl. rewrite Hline, Hw.
  rewrite (parse_lines_all_decode post) by done. simpl. split; [done|].
  rewrite parse_lines_frame by done.
  rewrite upsert_set_cell, cell_set_cell. by rewrite decide_True.
Qed.
(** A concrete text is a status line; the value is left to the caller. *)
Ltac status_text :=
  split; [vm_compute; reflexivity |
  split; [discriminate |
  split; [unfold lower_us; repeat constructor; simpl; lia |
  split; [split; [discriminate | repeat constructor] | ]]]].

Lemma refresh_last_line_wins_witness :
  let e := answering ("$ " ++ lf ++ "relay1:1" ++ lf ++ "relay1:0" ++ lf ++ "pf1:0.5" ++ lf) in
  fst (update 0 e test_world) = Ret (Some ())
  ∧ cell (_states (self (snd (update 0 e test_world)))) (txt "1") (txt "relay") = Some (txt "0").
Proof.
  intros e.
  apply (refresh_last_line_wins 0 e test_world [lit_bytes "relay1:1"] [lit_bytes "pf1:0.5"]
           (lit_bytes "relay1:0") (txt "relay1:0")).
  - reflexivity.
  - reflexivity.
  - vm_compute. reflexivity.
  - apply (bool_decide_unpack _). vm_compute. reflexivity.
  - vm_compute. reflexivity.
  - status_text. left. split; [discriminate | repeat constructor].
  - intros l t' v' Hl. apply list_elem_of_singleton in Hl as ->. intros [= <-].
    apply (status_line_no_match_other _ (txt "pf") (txt "1") (txt "0.5")); [|discriminate].
    status_text. numeric_text "0" "5".
Defined.

(** X5.  A refresh is not atomic.  When the inner lines all decode up to a
    line that is not UTF-8, a refresh that runs with a session writes the
    status command, applies the lines before that one, raises
    [UnicodeDecodeError] and leaves the lines after it unread. *)
Theorem refresh_stops_at_undecodable_line (now : Z) (e : Env) (w : World)
    (pre post : list bytes) (bad : bytes) :
  throttled now w = false →
  session_available e w →
  slice_1_m1 (split_nl (before e)) = pre ++ bad :: post →
  Forall (fun l => is_Some (utf8_decode l)) pre →
  utf8_decode bad = None →
  fst (update now e w) = Raise UnicodeDecodeError
  ∧ wire (snd (update now e w)) = wire w ++ [CMD_POWER_STATUS]
  ∧ for_each pre update_line w
    = (Ret (), set_states (_states (self (snd (update now e w)))) w).
Proof.
  intros Ht Ha Hdata Hpre Hbad.
  rewrite (update_due _ _ _ Ht), (update_undecorated_available _ _ Ha).
  unfold power_data. rewrite Hdata.
  rewrite (parse_lines_app pre) by by apply parse_lines_all_decode.
  simpl. rewrite Hbad. simpl. split; [done|]. split; [done|].
  rewrite for_each_update_line. by rewrite (parse_lines_all_decode pre).
Qed.

Lemma refresh_stops_at_undecodable_line_witness :
  let e := {| isalive := false; login := LoginOk;
              before := lit_bytes ("$ " ++ lf ++ "relay1:1" ++ lf) ++ [xff; x0a]
                        ++ lit_bytes ("relay2:1" ++ lf) |} in
  fst (update 0 e test_world) = Raise UnicodeDecodeError
  ∧ cell (_states (self (snd (update 0 e test_world)))) (txt "1") (txt "relay") = Some (txt "1")
  ∧ cell (_states (self (snd (update 0 e test_world)))) (txt "2") (txt "relay") = None.
Proof.
  intros e.
  destruct (refresh_stops_at_undecodable_line 0 e test_world
              [lit_bytes "relay1:1"] [lit_bytes "relay2:1"] [xff]) as (Hr & _ & _).
  - reflexivity.
  - reflexivity.
  - vm_compute. reflexivity.
  - apply (bool_decide_unpack _). vm_compute. reflexivity.
  - reflexivity.
  - split; [exact Hr|]. split; vm_compute; reflexivity.
Defined.

Lemma cell_is_Some_set_cell k n v s k' n' :
  is_Some (cell s k' n') → is_Some (cell (set_cell k n v s) k' n').
Proof. rewrite cell_set_cell. case_decide; [by eexists|done]. Qed.

Lemma parse_lines_keeps (ls : list bytes) (s : StateTable) (k n : Text) :
  (is_Some (s !! k) → is_Some (snd (parse_lines ls s) !! k))
  ∧ (is_Some (cell s k n) → is_Some (cell (snd (parse_lines ls s)) k n)).
Proof.
  revert s. induction ls as [|l ls IH]; intros s; simpl; [done|].
  destruct (utf8_decode l) as [t|]; [|done].
  destruct (line_write t) as [[[k' n'] v']|]; [|apply IH].
  destruct (IH (upsert k' n' v' s)) as [IH1 IH2]. rewrite upsert_set_cell in *. split.
  - intros H. apply IH1. apply is_Some_set_cell. by right.
  - intros H. apply IH2. by apply cell_is_Some_set_cell.
Qed.

(** X6.  Nothing is ever forgotten.  Whatever [update], [turn_on] and
    [turn_off] do (return, raise, find no session), an outlet key that was in
    the table is still in it and a cell that had a value still has one. *)
Theorem table_never_shrinks (w : World) (now : Z) (key : Text) (e : Env) (k n : Text) :
  let after := [_states (self (snd (update now e w)));
                _states (self (snd (turn_on key e w)));
                _states (self (snd (turn_off key e w)))] in
  Forall (fun s' => (is_Some (_states (self w) !! k) → is_Some (s' !! k))
                    ∧ (is_Some (cell (_states (self w)) k n) → is_Some (cell s' k n))) after.
Proof.
  assert (Hset : ∀ v m, _states (self w) !! key = Some m →
            <[key := <[txt "relay" := v]> m]> (_states (self w))
            = set_cell key (txt "relay") v (_states (self w))).
  { intros v m Hk. unfold set_cell. by rewrite Hk. }
  repeat constructor.
  - destruct (update_states now e w) as [-> | ->]; [done|]. apply (parse_lines_keeps _ _ k n).
  - destruct (update_states now e w) as [-> | ->]; [done|]. apply (parse_lines_keeps _ _ k n).
  - destruct (session_available_dec e w) as [Ha|Hf].
    + rewrite (turn_on_available _ _ _ Ha). simpl.
      destruct (_states (self w) !! key) as [m|] eqn:Hk; [|done]. simpl.
      rewrite (Hset _ _ eq_refl). intros H. apply is_Some_set_cell. by right.
    + by rewrite (turn_on_fails _ _ _ Hf).
  - destruct (session_available_dec e w) as [Ha|Hf].
    + rewrite (turn_on_available _ _ _ Ha). simpl.
      destruct (_states (self w) !! key) as [m|] eqn:Hk; [|done]. simpl.
      rewrite (Hset _ _ eq_refl). apply cell_is_Some_set_cell.
    + by rewrite (turn_on_fails _ _ _ Hf).
  - destruct (session_available_dec e w) as [Ha|Hf].
    + rewrite (turn_off_available _ _ _ Ha). simpl.
      destruct (_states (self w) !! key) as [m|] eqn:Hk; [|done]. simpl.
      rewrite (Hset _ _ eq_refl). intros H. apply is_Some_set_cell. by right.
    + by rewrite (turn_off_fails _ _ _ Hf).
  - destruct (session_available_dec e w) as [Ha|Hf].
    + rewrite (turn_off_available _ _ _ Ha). simpl.
      destruct (_states (self w) !! key) as [m|] eqn:Hk; [|done]. simpl.
      rewrite (Hset _ _ eq_refl). apply cell_is_Some_set_cell.
    + by rewrite (turn_off_fails _ _ _ Hf).
Qed.
(** ** The shape of the table *)

Lemma table_wf_set_cell k n v s :
  table_wf s → decimal_run k → n ≠ [] → Forall lower_us n → numeric_value v →
  table_wf (set_cell k n v s).
Proof.
  intros Hs Hk Hn Hnall Hv k' m'. rewrite lookup_set_cell. case_decide as Hkk.
  - subst k'. intros [= <-]. split; [done|]. split.
    { intros Hempty. apply (f_equal (fun m => m !! n)) in Hempty.
      by rewrite lookup_insert_eq, lookup_empty in Hempty. }
    intros n' v'. rewrite lookup_insert. case_decide as Hnn.
    + subst n'. by intros [= <-].
    + destruct (s !! k) as [m|] eqn:Hm; simpl.
      * by apply (Hs k m Hm).
      * by rewrite lookup_empty.
  - apply Hs.
Qed.

Lemma parse_lines_table_wf (ls : list bytes) (s : StateTable) :
  Forall (fun l => byte_LF ∉ l) ls → table_wf s → table_wf (snd (parse_lines ls s)).
Proof.
  revert s. induction ls as [|l ls IH]; intros s Hlf Hs; simpl; [done|].
  apply Forall_cons in Hlf as [Hl Hlf].
  destruct (utf8_decode l) as [t|] eqn:Ht; [|done].
  apply IH; [done|].
  destruct (line_write t) as [[[k n] v]|] eqn:Hw; [|done].
  apply line_write_status in Hw as (_ & Hn & Hnall & Hk & Hv).
  - rewrite upsert_set_cell. by apply table_wf_set_cell.
  - apply remove_cr_no_LF. by eapply utf8_decode_no_LF.
Qed.

Lemma table_wf_empty : table_wf ∅.
Proof. intros k m. by rewrite lookup_empty. Qed.

Lemma relay_name_wf : txt "relay" ≠ [] ∧ Forall lower_us (txt "relay").
Proof. split; [discriminate|]. unfold lower_us. repeat constructor; simpl; lia. Qed.

(** X7.  The methods keep the table well formed, whatever they do: after
    [update], [turn_on] and [turn_off] every outlet key is a run of decimal
    digits, every outlet has a metric at least, every metric name is a run
    of [a-z_], and every value is a text of the form [d+] or [d+.d+], so that
    [float] reads it. *)
Theorem table_stays_wellformed (w : World) (now : Z) (key : Text) (e : Env) :
  table_wf (_states (self w)) →
  table_wf (_states (self (snd (update now e w))))
  ∧ table_wf (_states (self (snd (turn_on key e w))))
  ∧ table_wf (_states (self (snd (turn_off key e w)))).
Proof.
  intros Hw.
  assert (Hrelay : ∀ v m, v = txt "0" ∨ v = txt "1" → _states (self w) !! key = Some m →
            table_wf (<[key := <[txt "relay" := v]> m]> (_states (self w)))).
  { intros v m Hv Hk.
    replace (<[key := <[txt "relay" := v]> m]> (_states (self w)))
      with (set_cell key (txt "relay") v (_states (self w)))
      by (unfold set_cell; by rewrite Hk).
    destruct relay_name_wf as [Hn Hnall].
    apply table_wf_set_cell; [done|by apply (Hw key m Hk)|done|done|by apply numeric_bit]. }
  split; [|split].
  - destruct (update_states now e w) as [-> | ->]; [done|].
    apply parse_lines_table_wf; [apply power_data_no_LF|done].
  - destruct (session_available_dec e w) as [Ha|Hf].
    + rewrite (turn_on_available _ _ _ Ha). simpl.
      destruct (_states (self w) !! key) as [m|] eqn:Hk; [|done]. simpl.
      apply Hrelay; auto.
    + by rewrite (turn_on_fails _ _ _ Hf).
  - destruct (session_available_dec e w) as [Ha|Hf].
    + rewrite (turn_off_available _ _ _ Ha). simpl.
      destruct (_states (self w) !! key) as [m|] eqn:Hk; [|done]. simpl.
      apply Hrelay; auto.
    + by rewrite (turn_off_fails _ _ _ Hf).
Qed.

Lemma table_stays_wellformed_witness :
  table_wf (_states (self polled_world))
  ∧ table_wf (_states (self (snd (turn_on (txt "4") mock_ssh test_world)))).
Proof.
  destruct (table_stays_wellformed test_world 0 (txt "4") mock_ssh table_wf_empty)
    as (Hup & Hon & _).
  split; [exact Hup | exact Hon].
Defined.

(** ** Commands and the session *)

(** X8.  A command goes out only over a session.  A session is available to
    a call exactly when the one the controller holds is alive or the login
    returns.  Then [turn_on], [turn_off] and the undecorated [update] write
    one line each to it, the relay command of the outlet or the status
    command, and the controller holds a session afterwards.  Otherwise they
    write nothing, the controller holds no session afterwards (a dead one is
    dropped), and the relay writes answer [False]. *)
Theorem commands_follow_session (key : Text) (e : Env) (w : World) :
  (session_available e w
   ↔ truthy (_ssh (self w)) && isalive e = true ∨ login e = LoginOk)
  ∧ ((session_available e w
      ∧ wire (snd (turn_on key e w)) = wire w ++ [CMD_RELAY 1 key]
      ∧ wire (snd (turn_off key e w)) = wire w ++ [CMD_RELAY 0 key]
      ∧ wire (snd (update_undecorated e w)) = wire w ++ [CMD_POWER_STATUS]
      ∧ Forall (fun w' => _ssh (self w') = Some Pxssh)
          [snd (turn_on key e w); snd (turn_off key e w); snd (update_undecorated e w)])
     ∨ (¬ session_available e w
        ∧ Forall (fun w' => wire w' = wire w ∧ _ssh (self w') = None)
            [snd (turn_on key e w); snd (turn_off key e w); snd (update_undecorated e w)]
        ∧ fst (turn_on key e w) = Ret false
        ∧ fst (turn_off key e w) = Ret false)).
Proof.
  split.
  - rewrite session_available_iff. unfold connect_fails.
    destruct (truthy (_ssh (self w))), (isalive e), (login e); simpl;
      intuition congruence.
  - destruct (session_available_dec e w) as [Ha|Hf].
    + left. split; [done|].
      rewrite (turn_on_available _ _ _ Ha), (turn_off_available _ _ _ Ha),
        (update_undecorated_available _ _ Ha). simpl.
      destruct (_states (self w) !! key); simpl; repeat split; by repeat constructor.
    + right. split; [intros Ha%session_available_iff; by apply Ha|].
      rewrite (turn_on_fails _ _ _ Hf), (turn_off_fails _ _ _ Hf),
        (update_undecorated_fails _ _ Hf). simpl. split; [|done]. by repeat constructor.
Qed.
(** ** The outlet *)

Lemma outlet_turn_on_eq (o : MpowerOutlet) (e : Env) (w : World) :
  snd (outlet_turn_on o e w) = snd (turn_on (_device_number o) e w)
  ∧ fst (outlet_turn_on o e w)
    = obind (fst (turn_on (_device_number o) e w)) (fun _ => Ret ()).
Proof.
  unfold outlet_turn_on, bind, ret.
  by destruct (turn_on (_device_number o) e w) as [[b|err] w'].
Qed.

Lemma outlet_turn_off_eq (o : MpowerOutlet) (e : Env) (w : World) :
  snd (outlet_turn_off o e w) = snd (turn_off (_device_number o) e w)
  ∧ fst (outlet_turn_off o e w)
    = obind (fst (turn_off (_device_number o) e w)) (fun _ => Ret ()).
Proof.
  unfold outlet_turn_off, bind, ret.
  by destruct (turn_off (_device_number o) e w) as [[b|err] w'].
Qed.

Lemma is_on_relay (o : MpowerOutlet) (c : MpowerDevice) (m : gmap Text Text) (v : Text) :
  _states c !! _device_number o = Some m → m !! txt "relay" = Some v →
  is_on o c = Ret (bool_decide (v = txt "1")).
Proof. intros Hm Hv. unfold is_on. by rewrite (read_metric_eq _ _ _ _ _ Hm Hv). Qed.

(** X9.  Switching an outlet and reading it back.  For an outlet whose key
    is in the table and a session available: after the outlet's [turn_on],
    which returns, [is_on] is [True] without a refresh, and after its
    [turn_off], [False]; no other cell of the table has changed; a second
    [turn_on] changes nothing more; and a [turn_off] after the [turn_on]
    leaves the table a [turn_off] alone would have left. *)
Theorem toggle_then_read (o : MpowerOutlet) (e e' : Env) (w : World)
    (m : gmap Text Text) :
  _states (self w) !! _device_number o = Some m →
  session_available e w →
  (fst (outlet_turn_on o e w) = Ret ()
   ∧ is_on o (self (snd (outlet_turn_on o e w))) = Ret true)
  ∧ (fst (outlet_turn_off o e w) = Ret ()
     ∧ is_on o (self (snd (outlet_turn_off o e w))) = Ret false)
  ∧ (∀ k n, (k, n) ≠ (_device_number o, txt "relay") →
       cell (_states (self (snd (outlet_turn_on o e w)))) k n = cell (_states (self w)) k n
       ∧ cell (_states (self (snd (outlet_turn_off o e w)))) k n = cell (_states (self w)) k n)
  ∧ _states (self (snd (outlet_turn_on o e' (snd (outlet_turn_on o e w)))))
    = _states (self (snd (outlet_turn_on o e w)))
  ∧ (session_available e' (snd (outlet_turn_on o e w)) →
     _states (self (snd (outlet_turn_off o e' (snd (outlet_turn_on o e w)))))
     = _states (self (snd (outlet_turn_off o e w)))).
Proof.
  intros Hm Ha.
  destruct (outlet_turn_on_eq o e w) as [Hon_w Hon_r].
  destruct (outlet_turn_off_eq o e w) as [Hoff_w Hoff_r].
  rewrite Hon_w, Hoff_w, Hon_r, Hoff_r.
  rewrite (turn_on_available _ _ _ Ha), (turn_off_available _ _ _ Ha). simpl.
  rewrite Hm. simpl.
  set (k0 := _device_number o) in *.
  assert (Hcell : ∀ v k n, (k, n) ≠ (k0, txt "relay") →
            cell (<[k0 := <[txt "relay" := v]> m]> (_states (self w))) k n
            = cell (_states (self w)) k n).
  { intros v k n Hne.
    replace (<[k0 := <[txt "relay" := v]> m]> (_states (self w)))
      with (set_cell k0 (txt "relay") v (_states (self w)))
      by (unfold set_cell; by rewrite Hm).
    rewrite cell_set_cell. case_decide as Hkn; [|done]. by destruct Hkn as [<- <-]. }
  split; [split; [done|]|split; [split; [done|]|split; [|split]]].
  - erewrite is_on_relay; [|simpl; apply lookup_insert_eq|apply lookup_insert_eq]. done.
  - erewrite is_on_relay; [|simpl; apply lookup_insert_eq|apply lookup_insert_eq]. done.
  - intros k n Hne. by rewrite !Hcell.
  - destruct (outlet_turn_on_eq o e' (set_states
        (<[k0 := <[txt "relay" := txt "1"]> m]> (_states (self w)))
        (sent (CMD_RELAY 1 k0) (set_ssh (Some Pxssh) w)))) as [-> _].
    match goal with |- context [turn_on _ e' ?w1] =>
      destruct (session_available_dec e' w1) as [Ha'|Hf'];
      [rewrite (turn_on_available _ _ _ Ha')|rewrite (turn_on_fails _ _ _ Hf')] end;
      simpl; [|done].
    rewrite lookup_insert_eq. simpl. by rewrite !insert_insert_eq.
  - intros Ha'.
    destruct (outlet_turn_off_eq o e' (set_states
        (<[k0 := <[txt "relay" := txt "1"]> m]> (_states (self w)))
        (sent (CMD_RELAY 1 k0) (set_ssh (Some Pxssh) w)))) as [-> _].
    rewrite (turn_off_available _ _ _ Ha'). simpl.
    rewrite lookup_insert_eq. simpl. by rewrite !insert_insert_eq.
Qed.

Lemma toggle_then_read_witness :
  let o := MpowerOutlet_init (self polled_world) (txt "4") (Some (txt "tv")) in
  is_on o (self polled_world) = Ret false
  ∧ is_on o (self (snd (outlet_turn_on o mock_ssh polled_world))) = Ret true.
Proof.
  intros o. split; [vm_compute; reflexivity|].
  pose (m := default ∅ (_states (self polled_world) !! txt "4")).
  destruct (toggle_then_read o mock_ssh mock_ssh polled_world m) as [[_ Hon] _].
  - vm_compute. reflexivity.
  - reflexivity.
  - exact Hon.
Defined.


(** ** Encoding and decoding *)

Lemma to_N_byte_of_N (n : N) : n ≤ 255 → Byte.to_N (byte_of_N n) = n.
Proof.
  intros Hn. unfold byte_of_N. destruct (Byte.of_N n) as [b|] eqn:Hb; simpl.
  - by apply Byte.to_of_N.
  - apply Byte.of_N_None_iff in Hb. lia.
Qed.

Lemma byte_of_N_to_N (b : byte) : byte_of_N (Byte.to_N b) = b.
Proof. unfold byte_of_N. by rewrite Byte.of_to_N. Qed.

Lemma in_range_true lo hi n : lo ≤ n ≤ hi → in_range lo hi n = true.
Proof. intros [? ?]. unfold in_range. apply andb_true_iff. by rewrite !N.leb_le. Qed.

Lemma in_range_false lo hi n : n < lo ∨ hi < n → in_range lo hi n = false.
Proof.
  intros H. unfold in_range. apply andb_false_iff. rewrite !N.leb_gt. tauto.
Qed.

Lemma in_range_spec lo hi n : in_range lo hi n = true ↔ lo ≤ n ≤ hi.
Proof. unfold in_range. by rewrite andb_true_iff, !N.leb_le. Qed.

Lemma cont_in_byte lo hi n :
  lo ≤ n ≤ hi → 0x80 ≤ lo → hi ≤ 0xBF → cont_in lo hi (byte_of_N n) = Some (n - 0x80).
Proof.
  intros Hn Hlo Hhi. unfold cont_in. rewrite to_N_byte_of_N by lia.
  by rewrite in_range_true.
Qed.

(** [lia] for goals with quotients and remainders by constants. *)
Ltac dlia := zify; Z.to_euclidean_division_equations; lia.

Lemma utf8_decode_encode_char (c : N) (b r : bytes) (t : Text) :
  utf8_encode_char c = Some b → utf8_decode r = Some t →
  utf8_decode (b ++ r) = Some (c :: t).
Proof.
  unfold utf8_encode_char. intros Hb Hr.
  destruct (c <? 0x80) eqn:E1.
  { apply N.ltb_lt in E1. injection Hb as <-. simpl.
    rewrite to_N_byte_of_N by dlia. rewrite (proj2 (N.ltb_lt _ _)) by dlia. by rewrite Hr. }
  apply N.ltb_ge in E1. destruct (c <? 0x800) eqn:E2.
  { apply N.ltb_lt in E2. injection Hb as <-.
    cbn [app utf8_decode]. rewrite to_N_byte_of_N by dlia.
    rewrite (proj2 (N.ltb_ge _ _)) by dlia. rewrite in_range_true by dlia.
    rewrite cont_in_byte by dlia. rewrite Hr. simpl. f_equal. f_equal. dlia. }
  apply N.ltb_ge in E2. destruct (c <? 0x10000) eqn:E3.
  { apply N.ltb_lt in E3. destruct (in_range 0xD800 0xDFFF c) eqn:E4; [done|].
    injection Hb as <-.
    assert (Hsur : c < 0xD800 ∨ 0xDFFF < c).
    { unfold in_range in E4. apply andb_false_iff in E4. rewrite !N.leb_gt in E4. tauto. }
    cbn [app utf8_decode]. rewrite to_N_byte_of_N by dlia.
    rewrite (proj2 (N.ltb_ge _ _)) by dlia. rewrite in_range_false by dlia.
    rewrite in_range_true by dlia.
    destruct (0xE0 + c / 4096 =? 0xE0) eqn:F1; destruct (0xE0 + c / 4096 =? 0xED) eqn:F2;
      rewrite ?N.eqb_eq, ?N.eqb_neq in *;
      (rewrite cont_in_byte by dlia); (rewrite cont_in_byte by dlia);
      rewrite Hr; simpl; f_equal; f_equal; dlia. }
  apply N.ltb_ge in E3. destruct (c <? 0x110000) eqn:E4; [|done].
  apply N.ltb_lt in E4. injection Hb as <-.
  cbn [app utf8_decode]. rewrite to_N_byte_of_N by dlia.
  rewrite (proj2 (N.ltb_ge _ _)) by dlia. rewrite in_range_false by dlia.
  rewrite in_range_false by dlia. rewrite in_range_true by dlia.
  destruct (0xF0 + c / 262144 =? 0xF0) eqn:F1; destruct (0xF0 + c / 262144 =? 0xF4) eqn:F2;
    rewrite ?N.eqb_eq, ?N.eqb_neq in *;
    (rewrite cont_in_byte by dlia); (rewrite cont_in_byte by dlia); (rewrite cont_in_byte by dlia);
    rewrite Hr; simpl; f_equal; f_equal; dlia.
Qed.

Lemma utf8_decode_encode (t : Text) (bs : bytes) :
  utf8_encode t = Some bs → utf8_decode bs = Some t.
Proof.
  revert bs. induction t as [|c t IH]; intros bs; simpl.
  - by intros [= <-].
  - destruct (utf8_encode_char c) as [b|] eqn:Hb; [|done].
    destruct (utf8_encode t) as [r|]; [|done]. intros [= <-].
    by apply utf8_decode_encode_char; [|apply IH].
Qed.
Lemma utf8_encode_char_1 (b0 : byte) :
  Byte.to_N b0 < 0x80 → utf8_encode_char (Byte.to_N b0) = Some [b0].
Proof.
  intros H. unfold utf8_encode_char. rewrite (proj2 (N.ltb_lt _ _)) by done.
  by rewrite byte_of_N_to_N.
Qed.

Lemma utf8_encode_char_2 (b0 b1 : byte) (c1 : N) :
  in_range 0xC2 0xDF (Byte.to_N b0) = true → cont_in 0x80 0xBF b1 = Some c1 →
  utf8_encode_char ((Byte.to_N b0 - 0xC0) * 64 + c1) = Some [b0; b1].
Proof.
  intros H0%in_range_spec H1. apply cont_in_Some in H1 as [-> H1]; [|done].
  unfold utf8_encode_char.
  rewrite (proj2 (N.ltb_ge _ _)) by lia. rewrite (proj2 (N.ltb_lt _ _)) by lia.
  match goal with |- Some [byte_of_N ?x; byte_of_N ?y] = _ =>
    replace x with (Byte.to_N b0) by dlia; replace y with (Byte.to_N b1) by dlia end.
  by rewrite !byte_of_N_to_N.
Qed.

Lemma utf8_encode_char_3 (b0 b1 b2 : byte) (c1 c2 : N) :
  in_range 0xE0 0xEF (Byte.to_N b0) = true →
  cont_in (if Byte.to_N b0 =? 0xE0 then 0xA0 else 0x80)
          (if Byte.to_N b0 =? 0xED then 0x9F else 0xBF) b1 = Some c1 →
  cont_in 0x80 0xBF b2 = Some c2 →
  utf8_encode_char ((Byte.to_N b0 - 0xE0) * 4096 + c1 * 64 + c2) = Some [b0; b1; b2].
Proof.
  intros H0%in_range_spec H1 H2.
  apply cont_in_Some in H1 as [-> H1]; [|by destruct (_ =? _)].
  apply cont_in_Some in H2 as [-> H2]; [|done].
  assert (H1' : 0x80 ≤ Byte.to_N b1 ≤ 0xBF
                ∧ (Byte.to_N b0 = 0xE0 → 0xA0 ≤ Byte.to_N b1)
                ∧ (Byte.to_N b0 = 0xED → Byte.to_N b1 ≤ 0x9F)).
  { destruct (Byte.to_N b0 =? 0xE0) eqn:F1; destruct (Byte.to_N b0 =? 0xED) eqn:F2;
      rewrite ?N.eqb_eq, ?N.eqb_neq in *; lia. }
  clear H1. unfold utf8_encode_char.
  rewrite (proj2 (N.ltb_ge _ _)) by lia. rewrite (proj2 (N.ltb_ge _ _)) by lia.
  rewrite (proj2 (N.ltb_lt _ _)) by lia. rewrite in_range_false by lia.
  match goal with |- Some [byte_of_N ?x; byte_of_N ?y; byte_of_N ?z] = _ =>
    replace x with (Byte.to_N b0) by dlia; replace y with (Byte.to_N b1) by dlia;
    replace z with (Byte.to_N b2) by dlia end.
  by rewrite !byte_of_N_to_N.
Qed.

Lemma utf8_encode_char_4 (b0 b1 b2 b3 : byte) (c1 c2 c3 : N) :
  in_range 0xF0 0xF4 (Byte.to_N b0) = true →
  cont_in (if Byte.to_N b0 =? 0xF0 then 0x90 else 0x80)
          (if Byte.to_N b0 =? 0xF4 then 0x8F else 0xBF) b1 = Some c1 →
  cont_in 0x80 0xBF b2 = Some c2 → cont_in 0x80 0xBF b3 = Some c3 →
  utf8_encode_char ((Byte.to_N b0 - 0xF0) * 262144 + c1 * 4096 + c2 * 64 + c3)
  = Some [b0; b1; b2; b3].
Proof.
  intros H0%in_range_spec H1 H2 H3.
  apply cont_in_Some in H1 as [-> H1]; [|by destruct (_ =? _)].
  apply cont_in_Some in H2 as [-> H2]; [|done].
  apply cont_in_Some in H3 as [-> H3]; [|done].
  assert (H1' : 0x80 ≤ Byte.to_N b1 ≤ 0xBF
                ∧ (Byte.to_N b0 = 0xF0 → 0x90 ≤ Byte.to_N b1)
                ∧ (Byte.to_N b0 = 0xF4 → Byte.to_N b1 ≤ 0x8F)).
  { destruct (Byte.to_N b0 =? 0xF0) eqn:F1; destruct (Byte.to_N b0 =? 0xF4) eqn:F2;
      rewrite ?N.eqb_eq, ?N.eqb_neq in *; lia. }
  clear H1. unfold utf8_encode_char.
  rewrite (proj2 (N.ltb_ge _ _)) by lia. rewrite (proj2 (N.ltb_ge _ _)) by lia.
  rewrite (proj2 (N.ltb_ge _ _)) by lia. rewrite (proj2 (N.ltb_lt _ _)) by lia.
  match goal with
  |- Some [byte_of_N ?x; byte_of_N ?y; byte_of_N ?z; byte_of_N ?u] = _ =>
    replace x with (Byte.to_N b0) by dlia; replace y with (Byte.to_N b1) by dlia;
    replace z with (Byte.to_N b2) by dlia; replace u with (Byte.to_N b3) by dlia end.
  by rewrite !byte_of_N_to_N.
Qed.

Lemma utf8_encode_decode (bs : bytes) (t : Text) :
  utf8_decode bs = Some t → utf8_encode t = Some bs.
Proof.
  remember (length bs) as n eqn:Hn. revert bs t Hn.
  induction n as [n IH] using lt_wf_ind. intros bs t -> Hdec.
  destruct bs as [|b0 r0]; simpl in Hdec.
  { by injection Hdec as <-. }
  destruct (Byte.to_N b0 <? 0x80) eqn:E0.
  { destruct (utf8_decode r0) as [t0|] eqn:Hr; [|done]. injection Hdec as <-.
    apply N.ltb_lt in E0. simpl. rewrite (utf8_encode_char_1 _ E0).
    by rewrite (IH (length r0) ltac:(simpl; lia) r0 t0 eq_refl Hr). }
  destruct (in_range 0xC2 0xDF (Byte.to_N b0)) eqn:E1.
  { destruct r0 as [|b1 r1]; [done|].
    destruct (cont_in 0x80 0xBF b1) as [c1|] eqn:Hc1; [|done].
    destruct (utf8_decode r1) as [t1|] eqn:Hr; [|done]. injection Hdec as <-.
    simpl. rewrite (utf8_encode_char_2 _ _ _ E1 Hc1).
    by rewrite (IH (length r1) ltac:(simpl; lia) r1 t1 eq_refl Hr). }
  destruct (in_range 0xE0 0xEF (Byte.to_N b0)) eqn:E2.
  { destruct r0 as [|b1 [|b2 r2]]; [done..|].
    destruct (cont_in _ _ b1) as [c1|] eqn:Hc1; [|done].
    destruct (cont_in 0x80 0xBF b2) as [c2|] eqn:Hc2; [|done].
    destruct (utf8_decode r2) as [t2|] eqn:Hr; [|done]. injection Hdec as <-.
    simpl. rewrite (utf8_encode_char_3 _ _ _ _ _ E2 Hc1 Hc2).
    by rewrite (IH (length r2) ltac:(simpl; lia) r2 t2 eq_refl Hr). }
  destruct (in_range 0xF0 0xF4 (Byte.to_N b0)) eqn:E3; [|done].
  destruct r0 as [|b1 [|b2 [|b3 r3]]]; [done..|].
  destruct (cont_in _ _ b1) as [c1|] eqn:Hc1; [|done].
  destruct (cont_in 0x80 0xBF b2) as [c2|] eqn:Hc2; [|done].
  destruct (cont_in 0x80 0xBF b3) as [c3|] eqn:Hc3; [|done].
  destruct (utf8_decode r3) as [t3|] eqn:Hr; [|done]. injection Hdec as <-.
  simpl. rewrite (utf8_encode_char_4 _ _ _ _ _ _ _ E3 Hc1 Hc2 Hc3).
  by rewrite (IH (length r3) ltac:(simpl; lia) r3 t3 eq_refl Hr).
Qed.

(** X11.  Decoding is the inverse of encoding: the bytes [bs] decode to the
    text [t] exactly when [t] encodes to [bs].  So a response decodes when it
    is the encoding of some text and only then, to that text, and no two
    byte strings decode to the same text (overlong forms, surrogates and
    values beyond U+10FFFF are refused). *)
Theorem utf8_round_trip (bs : bytes) (t : Text) :
  utf8_decode bs = Some t ↔ utf8_encode t = Some bs.
Proof. split; [apply utf8_encode_decode | apply utf8_decode_encode]. Qed.
Lemma byte_of_N_CR (n : N) : n ≤ 255 → byte_of_N n = byte_CR ↔ n = CR.
Proof.
  intros Hn. split.
  - intros H. apply (f_equal Byte.to_N) in H. by rewrite to_N_byte_of_N in H.
  - by intros ->.
Qed.

Lemma utf8_encode_char_CR (c : N) (b : bytes) :
  utf8_encode_char c = Some b →
  remove_cr_bytes b = if decide (c = CR) then [] else b.
Proof.
  unfold utf8_encode_char, remove_cr_bytes. intros Hb.
  assert (Hkeep : ∀ n, 0x80 ≤ n ≤ 255 → byte_of_N n ≠ byte_CR).
  { intros n Hn H. apply byte_of_N_CR in H; [|lia]. unfold CR in H. lia. }
  destruct (c <? 0x80) eqn:E1.
  { apply N.ltb_lt in E1. injection Hb as <-. case_decide as Hc.
    - by rewrite filter_cons_False by (intros H; apply H; apply byte_of_N_CR; [lia|done]).
    - rewrite filter_cons_True; [done|]. intros H. apply byte_of_N_CR in H; [done|lia]. }
  apply N.ltb_ge in E1. rewrite decide_False by (unfold CR; lia).
  destruct (c <? 0x800) eqn:E2.
  { apply N.ltb_lt in E2. injection Hb as <-.
    by rewrite !filter_cons_True by (apply Hkeep; dlia). }
  apply N.ltb_ge in E2. destruct (c <? 0x10000) eqn:E3.
  { apply N.ltb_lt in E3. destruct (in_range 0xD800 0xDFFF c); [done|]. injection Hb as <-.
    by rewrite !filter_cons_True by (apply Hkeep; dlia). }
  apply N.ltb_ge in E3. destruct (c <? 0x110000) eqn:E4; [|done].
  apply N.ltb_lt in E4. injection Hb as <-.
  by rewrite !filter_cons_True by (apply Hkeep; dlia).
Qed.

Lemma utf8_encode_remove_cr (t : Text) (bs : bytes) :
  utf8_encode t = Some bs → utf8_encode (remove_cr t) = Some (remove_cr_bytes bs).
Proof.
  revert bs. induction t as [|c t IH]; intros bs; simpl.
  - by intros [= <-].
  - destruct (utf8_encode_char c) as [b|] eqn:Hb; [|done].
    destruct (utf8_encode t) as [r|]; [|done]. intros [= <-].
    unfold remove_cr_bytes. rewrite filter_app. fold (remove_cr_bytes b) (remove_cr_bytes r).
    rewrite (utf8_encode_char_CR _ _ Hb). unfold remove_cr. case_decide as Hc.
    + rewrite filter_cons_False by (intros H; by apply H). apply IH. done.
    + rewrite filter_cons_True by done. simpl. rewrite Hb.
      fold (remove_cr t). by rewrite (IH r eq_refl).
Qed.

Lemma remove_cr_idemp (t : Text) : remove_cr (remove_cr t) = remove_cr t.
Proof.
  unfold remove_cr. induction t as [|c t IH]; [done|].
  destruct (decide (c = CR)) as [Hc|Hc].
  - by rewrite filter_cons_False by (intros H; by apply H).
  - rewrite (filter_cons_True (fun c => c ≠ CR) c t Hc).
    rewrite (filter_cons_True (fun c => c ≠ CR) c _ Hc). by rewrite IH.
Qed.

(** X12.  Carriage returns count for nothing, wherever they stand: for lines
    that decode, the loop of the refresh does to the world what it does when
    the carriage returns are taken out of the lines beforehand. *)
Theorem carriage_returns_ignored (lines : list bytes) (w : World) :
  Forall (fun l => is_Some (utf8_decode l)) lines →
  for_each (remove_cr_bytes <$> lines) update_line w = for_each lines update_line w.
Proof.
  assert (Hline : ∀ l w', is_Some (utf8_decode l) →
            update_line (remove_cr_bytes l) w' = update_line l w').
  { intros l w' [t Ht]. rewrite !update_line_eq, Ht.
    apply utf8_encode_decode, utf8_encode_remove_cr, utf8_decode_encode in Ht. rewrite Ht.
    unfold line_write. by rewrite remove_cr_idemp. }
  revert w. induction lines as [|l ls IH]; intros w H; [done|].
  apply Forall_cons in H as [Hl Hls]. cbn [fmap list_fmap for_each]. unfold bind.
  rewrite (Hline _ _ Hl). destruct (update_line l w) as [[[]|err] w']; [|done].
  by apply IH.
Qed.

Lemma carriage_returns_ignored_witness :
  for_each [[x72; x0d; x65; x6c; x61; x79; x31; x3a; x31; x0d; x0d]] update_line test_world
  = for_each [lit_bytes "relay1:1"] update_line test_world.
Proof.
  symmetry.
  apply (carriage_returns_ignored
           [[x72; x0d; x65; x6c; x61; x79; x31; x3a; x31; x0d; x0d]] test_world).
  apply (bool_decide_unpack _). vm_compute. reflexivity.
Defined.
(** ** Setting the platform up *)







(** X14.  Setting up against a device that cannot be reached.  When the
    login raises, [setup_platform] raises nothing and registers no outlet;
    nothing has been written to a session, the controller holds none, and
    its table is empty. *)
Theorem setup_platform_unreachable (config : Config) (now : Z) (e : Env) :
  login e ≠ LoginOk →
  fst (setup_platform config now e) = Ret []
  ∧ wire (snd (setup_platform config now e)) = []
  ∧ _ssh (self (snd (setup_platform config now e))) = None
  ∧ _states (self (snd (setup_platform config now e))) = ∅.
Proof.
  intros Hlogin. unfold setup_platform.
  set (w0 := {| self := MpowerDevice_init _ _ _ _ _; wire := [] |}).
  assert (Hf : connect_fails e w0) by (split; [by left|done]).
  rewrite (update_due now e w0 eq_refl), (update_undecorated_fails _ _ Hf). simpl.
  rewrite map_to_list_empty. done.
Qed.

Lemma setup_platform_unreachable_witness :
  fst (setup_platform
         {| conf_host := txt "192.168.0.1"; conf_name := txt "controller";
            conf_username := DEFAULT_USERNAME; conf_password := DEFAULT_PASSWORD;
            conf_timeout := DEFAULT_TIMEOUT; conf_labels := None |}
         0 mock_ssh_error_eof) = Ret [].
Proof.
  apply (setup_platform_unreachable
           {| conf_host := txt "192.168.0.1"; conf_name := txt "controller";
              conf_username := DEFAULT_USERNAME; conf_password := DEFAULT_PASSWORD;
              conf_timeout := DEFAULT_TIMEOUT; conf_labels := None |}
           0 mock_ssh_error_eof).
  discriminate.
Defined.
